(** * EbayScraper: the vehicle-listing text extraction engine

    A shallow embedding of [src/utils/vehicleParser.ts] and the properties
    of its parsing pipeline

      fixOCRErrors -> split into lines -> extractYear -> splitMakeModel
                   -> cleanText -> Vehicle records.

    JavaScript strings are sequences of UTF-16 code units; they are modelled
    as lists of code units, each a number in [N].  The regular expressions
    of the source are modelled by position matchers driven by two generic
    scanners, one for [String.prototype.replace] with a global pattern and
    one for [String.prototype.match] with a non-global pattern. *)

From Stdlib Require Import String Ascii.
From Stdlib Require Import List NArith Bool Arith Lia.
Import ListNotations.


(** ** JavaScript strings *)

Module Js.

Definition codeunit := N.
Definition jsstring := list codeunit.

(** A string literal of the source, all of whose characters are ASCII. *)
Definition lit (s : string) : jsstring :=
  map N_of_ascii (list_ascii_of_string s).

(** The line feed, which a Rocq string literal cannot hold. *)
Definition LF : codeunit := 10%N.

(** *** Character classes of the regular expressions (no [u] or [i] flag) *)

Definition inRange (lo hi c : codeunit) : bool :=
  ((lo <=? c) && (c <=? hi))%N.
Arguments inRange (lo hi c)%_N_scope.

(** [\d] *)
Definition isDigit (c : codeunit) : bool := inRange 48 57 c.

(** [[A-Z]] *)
Definition isUpperAZ (c : codeunit) : bool := inRange 65 90 c.

(** [[a-z]] *)
Definition isLowerAZ (c : codeunit) : bool := inRange 97 122 c.

(** [\w] is [[A-Za-z0-9_]]. *)
Definition isWordChar (c : codeunit) : bool :=
  isDigit c || isUpperAZ c || isLowerAZ c || (c =? 95)%N.

(** [\s], and the characters removed by [trim]: the WhiteSpace and
    LineTerminator productions of ECMAScript. *)
Definition isSpace (c : codeunit) : bool :=
  inRange 9 13 c || (c =? 32)%N || (c =? 160)%N || (c =? 5760)%N
  || inRange 8192 8202 c || (c =? 8232)%N || (c =? 8233)%N || (c =? 8239)%N
  || (c =? 8287)%N || (c =? 12288)%N || (c =? 65279)%N.

(** [[\n\r]] *)
Definition isNewline (c : codeunit) : bool := (c =? 10)%N || (c =? 13)%N.

(** [[^\w\s\-]] *)
Definition isSpecial (c : codeunit) : bool :=
  negb (isWordChar c || isSpace c || (c =? 45)%N).

(** *** String methods *)

Fixpoint dropWhile (p : codeunit -> bool) (s : jsstring) : jsstring :=
  match s with
  | [] => []
  | c :: r => if p c then dropWhile p r else s
  end.

Fixpoint takeWhile (p : codeunit -> bool) (s : jsstring) : jsstring :=
  match s with
  | [] => []
  | c :: r => if p c then c :: takeWhile p r else []
  end.

Definition trimStart (s : jsstring) : jsstring := dropWhile isSpace s.
Definition trimEnd (s : jsstring) : jsstring := rev (dropWhile isSpace (rev s)).

(** [s.trim()] *)
Definition trim (s : jsstring) : jsstring := trimEnd (trimStart s).

(** [s.startsWith(pre)] *)
Fixpoint startsWith (s pre : jsstring) {struct pre} : bool :=
  match pre, s with
  | [], _ => true
  | _ :: _, [] => false
  | p :: pre', c :: s' => (c =? p)%N && startsWith s' pre'
  end.

(** [s.includes(sub)] *)
Fixpoint includes (s sub : jsstring) : bool :=
  startsWith s sub ||
  match s with
  | [] => false
  | _ :: r => includes r sub
  end.

(** [s.substring(n)] for [n >= 0]; an [n] beyond the end gives the empty
    string, as [skipn] does. *)
Definition substring (s : jsstring) (n : nat) : jsstring := skipn n s.

(** [parts.join(sep)] *)
Fixpoint join (sep : jsstring) (parts : list jsstring) : jsstring :=
  match parts with
  | [] => []
  | p :: ps =>
      match ps with
      | [] => p
      | _ :: _ => p ++ sep ++ join sep ps
      end
  end.

(** [s.split(/[class]+/)]: the pieces between maximal runs of separator
    characters.  A separator at the start or at the end leaves an empty first
    or last piece, and the empty string splits into one empty piece. *)
Fixpoint splitRuns (sep : codeunit -> bool) (s : jsstring) : list jsstring :=
  match s with
  | [] => [[]]
  | c :: r =>
      if sep c then
        match r with
        | c' :: _ => if sep c' then splitRuns sep r else [] :: splitRuns sep r
        | [] => [] :: splitRuns sep r
        end
      else
        match splitRuns sep r with
        | p :: ps => (c :: p) :: ps
        | [] => [[c]]
        end
  end.

(** [parseInt(s)] in radix 10 for a string that starts with its digits
    (no sign, no blank, no radix prefix): the value of the leading digits,
    [None] standing for NaN. *)
Definition digitValue (c : codeunit) : N := (c - 48)%N.

Definition parseInt (s : jsstring) : option N :=
  match takeWhile isDigit s with
  | [] => None
  | ds => Some (fold_left (fun acc c => (10 * acc + digitValue c)%N) ds 0%N)
  end.

(** *** Regular expressions

    A pattern is modelled by its matcher: given the code unit before the
    current position (none at the start of the string) and the text from the
    current position on, the length of the match that starts here, if there
    is one.  Every pattern of the source matches at least one code unit. *)

Definition matcher := option codeunit -> jsstring -> option nat.

Definition isWordAt (o : option codeunit) : bool :=
  match o with
  | Some c => isWordChar c
  | None => false
  end.

(** [\b]: exactly one of the two neighbours of the position is a word
    character; beyond either end of the string counts as a non-word. *)
Definition atWordBoundary (prev : option codeunit) (s : jsstring) : bool :=
  xorb (isWordAt prev) (isWordAt (hd_error s)).

(** A pattern that is one character class. *)
Definition reClass (p : codeunit -> bool) : matcher :=
  fun _ s =>
    match s with
    | c :: _ => if p c then Some 1 else None
    | [] => None
    end.

(** A pattern that is one character class repeated with [+] (greedy). *)
Definition reClassPlus (p : codeunit -> bool) : matcher :=
  fun _ s =>
    match length (takeWhile p s) with
    | O => None
    | n => Some n
    end.

(** [/\bWORD\b/] for a literal [WORD] of word characters. *)
Definition reWholeWord (w : jsstring) : matcher :=
  fun prev s =>
    if atWordBoundary prev s && startsWith s w
       && atWordBoundary (nth_error s (length w - 1)) (skipn (length w) s)
    then Some (length w) else None.

(** [s.replace(re, repl)] for a global [re] and a replacement without [$]:
    scan from the left; where the pattern matches, emit the replacement and
    resume behind the match.  [skip] counts the code units of the current
    match that are still to be passed over. *)
Fixpoint replaceFrom (re : matcher) (repl : jsstring)
    (prev : option codeunit) (skip : nat) (s : jsstring) : jsstring :=
  match s with
  | [] => []
  | c :: r =>
      match skip with
      | S k => replaceFrom re repl (Some c) k r
      | O =>
          match re prev s with
          | Some (S k) => repl ++ replaceFrom re repl (Some c) k r
          | _ => c :: replaceFrom re repl (Some c) 0 r
          end
      end
  end.

Definition replaceAll (re : matcher) (repl s : jsstring) : jsstring :=
  replaceFrom re repl None 0 s.

(** The result of [s.match(re)] for a non-global [re]: the [index] of the
    leftmost match and the matched text, [m[0]]. *)
Record RegExpMatch := { index : nat; whole : jsstring }.

Fixpoint searchFrom (re : matcher) (prev : option codeunit) (i : nat)
    (s : jsstring) : option (nat * nat) :=
  match s with
  | [] => None
  | c :: r =>
      match re prev s with
      | Some len => Some (i, len)
      | None => searchFrom re (Some c) (S i) r
      end
  end.

Definition regexMatch (re : matcher) (s : jsstring) : option RegExpMatch :=
  match searchFrom re None 0 s with
  | Some (i, len) => Some {| index := i; whole := firstn len (skipn i s) |}
  | None => None
  end.

(** The code unit before position [k] of a text [s] that follows the code
    unit [prev]. *)
Definition prevAt (prev : option codeunit) (s : jsstring) (k : nat)
    : option codeunit :=
  match k with
  | O => prev
  | S j => nth_error s j
  end.

(** *** Upper-casing

    [String.prototype.toUpperCase] follows the Unicode case tables, which
    are outside the repository: the parser takes it as a parameter.  Two
    facts of those tables are stated here, for the properties that rest on
    them: on a string of ASCII characters [toUpperCase] upper-cases the
    letters a-z and leaves the rest, and its result never holds one of the
    letters a-z. *)

Definition upperAscii (c : codeunit) : codeunit :=
  if isLowerAZ c then (c - 32)%N else c.

Definition isAscii (s : jsstring) : Prop := Forall (fun c => (c < 128)%N) s.

Definition upperCasesAscii (up : jsstring -> jsstring) : Prop :=
  forall s, isAscii s -> up s = map upperAscii s.

Definition yieldsNoLowerAZ (up : jsstring -> jsstring) : Prop :=
  forall s c, In c (up s) -> isLowerAZ c = false.

End Js.

(** ** The parser of [src/utils/vehicleParser.ts] *)

Module VehicleParser.
Import Js.

Record Vehicle := {
  year : jsstring;
  make : jsstring;
  model : jsstring;
  fullText : jsstring
}.

Definition COMMON_MAKES : list jsstring :=
  map lit
    ["CHEVROLET"; "CHEVY"; "FORD"; "TOYOTA"; "HONDA"; "NISSAN"; "GMC"; "RAM";
     "JEEP"; "DODGE"; "HYUNDAI"; "KIA"; "MAZDA"; "SUBARU"; "VOLKSWAGEN"; "VW";
     "BMW"; "MERCEDES"; "AUDI"; "LEXUS"; "ACURA"; "INFINITI"; "CADILLAC";
     "BUICK"; "PONTIAC"; "LINCOLN"; "MERCURY"; "CHRYSLER"; "VOLVO";
     "MITSUBISHI"]%string.

(** *** The patterns of the source *)

(** [/\bJOI\b/g] *)
Definition reJOI : matcher := reWholeWord (lit "JOI").

(** The pattern of the section sign, U+00A7, with the [g] flag. *)
Definition reSection : matcher := reClass (fun c => (c =? 167)%N).

(** [/[|]/g] *)
Definition rePipe : matcher := reClass (fun c => (c =? 124)%N).

(** [/\bO\b/g] *)
Definition reStandaloneO : matcher := reWholeWord (lit "O").

(** [/\s+/g] *)
Definition reSpaces : matcher := reClassPlus isSpace.

(** [/[^\w\s\-]/g] *)
Definition reSpecial : matcher := reClass isSpecial.

(** [/\b(19\d{2}|20\d{2})\b/] *)
Definition reFourDigitYear : matcher :=
  fun prev s =>
    match s with
    | _ :: _ :: d3 :: d4 :: rest =>
        if atWordBoundary prev s
           && (startsWith s (lit "19") || startsWith s (lit "20"))
           && isDigit d3 && isDigit d4
           && atWordBoundary (Some d4) rest
        then Some 4 else None
    | _ => None
    end.

(** The lookahead [(?=[A-Z]|\s[A-Z])]. *)
Definition letterAhead (s : jsstring) : bool :=
  match s with
  | a :: s' =>
      isUpperAZ a
      || (isSpace a && match s' with b :: _ => isUpperAZ b | [] => false end)
  | [] => false
  end.

(** [/[^\d](\d{2})(?=[A-Z]|\s[A-Z])/]; the lookahead is not part of the
    match, whose length is 3. *)
Definition reTwoDigitYear : matcher :=
  fun _ s =>
    match s with
    | c :: d1 :: d2 :: rest =>
        if negb (isDigit c) && isDigit d1 && isDigit d2 && letterAhead rest
        then Some 3 else None
    | _ => None
    end.

(** The capture group [(\d{2})] of [reTwoDigitYear]: the two code units
    behind the first one of the match. *)
Definition twoDigitGroup (m : RegExpMatch) : jsstring :=
  firstn 2 (skipn 1 (whole m)).

Module YearData.
Record t := { year : jsstring; restOfText : jsstring }.
End YearData.

Section Parser.
Variable toUpperCase : jsstring -> jsstring.

Definition fixOCRErrors (text : jsstring) : jsstring :=
  let fixed := toUpperCase text in
  let fixed := replaceAll reJOI (lit "201") fixed in
  let fixed := replaceAll reSection (lit "2") fixed in
  let fixed := replaceAll rePipe (lit "1") fixed in
  let fixed := replaceAll reStandaloneO (lit "0") fixed in
  fixed.

(** The loop of [splitMakeModel] over the makes still to be tried. *)
Fixpoint splitMakeModelFrom (makes : list jsstring) (text upperText : jsstring)
    : jsstring :=
  match makes with
  | [] => text
  | make :: makes' =>
      if startsWith upperText make && (length make <? length upperText)
      then
        let model := substring text (length make) in
        make ++ lit " " ++ model
      else splitMakeModelFrom makes' text upperText
  end.

Definition splitMakeModel (text : jsstring) : jsstring :=
  let upperText := toUpperCase text in
  splitMakeModelFrom COMMON_MAKES text upperText.

Definition cleanText (text : jsstring) : jsstring :=
  trim (replaceAll reSpecial (lit " ") (replaceAll reSpaces (lit " ") text)).

Definition extractYear (text : jsstring) : option YearData.t :=
  match regexMatch reFourDigitYear text with
  | Some fourDigitMatch =>
      Some {| YearData.year := whole fourDigitMatch;
              YearData.restOfText :=
                trim (substring text (index fourDigitMatch + 4)) |}
  | None =>
      match regexMatch reTwoDigitYear text with
      | Some twoDigitMatch =>
          let twoDigit := twoDigitGroup twoDigitMatch in
          let yearNum := parseInt twoDigit in
          let fullYear :=
            match yearNum with
            | Some n =>
                if ((0 <=? n) && (n <=? 30))%N then lit "20" ++ twoDigit
                else lit "19" ++ twoDigit
            | None => lit "19" ++ twoDigit
            end in
          Some {| YearData.year := fullYear;
                  YearData.restOfText :=
                    trim (substring text
                            (index twoDigitMatch
                             + length (whole twoDigitMatch)
                             - length twoDigit)) |}
      | None => None
      end
  end.

(** The lines of [parseVehicles]: split on runs of line breaks, blank lines
    removed. *)
Definition splitLines (fixedText : jsstring) : list jsstring :=
  filter (fun line => 0 <? length (trim line)) (splitRuns isNewline fixedText).

(** The test that makes the loop of [parseVehicles] skip a line. *)
Definition skipsLine (trimmedLine : jsstring) : bool :=
  (length trimmedLine <? 5)
  || includes trimmedLine (lit "YARD")
  || includes trimmedLine (lit "ROW")
  || includes trimmedLine (lit "LOCAT")
  || includes trimmedLine (lit "Vehicle").

(** [vehicleText.split(/\s+/).filter(word => word.length > 0)] *)
Definition splitWords (vehicleText : jsstring) : list jsstring :=
  filter (fun word => 0 <? length word) (splitRuns isSpace vehicleText).

(** The body of the loop behind the skip test; [vehicles.push(v)] appends
    [v] to the records gathered so far. *)
Definition assemble (vehicles : list Vehicle) (trimmedLine : jsstring)
    : list Vehicle :=
  match extractYear trimmedLine with
  | Some yearData =>
      let year := YearData.year yearData in
      let restOfText := YearData.restOfText yearData in
      let vehicleText := restOfText in
      let vehicleText := splitMakeModel vehicleText in
      let vehicleText := cleanText vehicleText in
      let words := splitWords vehicleText in
      if 2 <=? length words then
        let make := hd [] words in
        let model := join (lit " ") (skipn 1 words) in
        vehicles ++ [ {| year := year; make := make; model := model;
                         fullText := year ++ lit " " ++ make ++ lit " " ++ model |} ]
      else if length words =? 1 then
        let make := hd [] words in
        vehicles ++ [ {| year := year; make := make; model := [];
                         fullText := year ++ lit " " ++ make |} ]
      else vehicles
  | None =>
      let cleanedLine := cleanText trimmedLine in
      if 0 <? length cleanedLine then
        vehicles ++ [ {| year := []; make := []; model := [];
                         fullText := cleanedLine |} ]
      else vehicles
  end.

(** One turn of the loop. *)
Definition processLine (vehicles : list Vehicle) (line : jsstring)
    : list Vehicle :=
  let trimmedLine := trim line in
  if skipsLine trimmedLine then vehicles
  else assemble vehicles trimmedLine.

Definition parseVehicles (text : jsstring) : list Vehicle :=
  let fixedText := fixOCRErrors text in
  let lines := splitLines fixedText in
  fold_left processLine lines [].

Definition formatVehicleList (vehicles : list Vehicle) : jsstring :=
  join [LF] (map fullText vehicles).

End Parser.

(** *** The parser without the mixed-case marker

    The loop of [parseVehicles] as the specification describes its dead
    marker: the same skip test with the [includes('Vehicle')] disjunct
    removed, and everything else as in the source. *)

Definition skipsLineWithoutVehicleMarker (trimmedLine : jsstring) : bool :=
  (length trimmedLine <? 5)
  || includes trimmedLine (lit "YARD")
  || includes trimmedLine (lit "ROW")
  || includes trimmedLine (lit "LOCAT").

Definition processLineWithoutVehicleMarker (toUpperCase : jsstring -> jsstring)
    (vehicles : list Vehicle) (line : jsstring) : list Vehicle :=
  let trimmedLine := trim line in
  if skipsLineWithoutVehicleMarker trimmedLine then vehicles
  else assemble toUpperCase vehicles trimmedLine.

Definition parseVehiclesWithoutVehicleMarker
    (toUpperCase : jsstring -> jsstring) (text : jsstring) : list Vehicle :=
  let fixedText := fixOCRErrors toUpperCase text in
  let lines := splitLines fixedText in
  fold_left (processLineWithoutVehicleMarker toUpperCase) lines [].

(** *** The words of the specification, position by position *)

(** The code unit before position [i], none at the start. *)
Definition charBefore (s : jsstring) (i : nat) : option codeunit :=
  match i with
  | O => None
  | S j => nth_error s j
  end.

(** A 4-digit token 19xx or 20xx starts at position [i] of [text], with no
    word character on either side of it. *)
Definition yearTokenAt (text : jsstring) (i : nat) : bool :=
  match nth_error text i, nth_error text (i + 1),
        nth_error text (i + 2), nth_error text (i + 3) with
  | Some c1, Some c2, Some d3, Some d4 =>
      (((c1 =? 49)%N && (c2 =? 57)%N) || ((c1 =? 50)%N && (c2 =? 48)%N))
      && isDigit d3 && isDigit d4
      && negb (isWordAt (charBefore text i))
      && negb (isWordAt (nth_error text (i + 4)))
  | _, _, _, _ => false
  end.

(** A 2-digit token starts at position [i] of [text], followed by a letter
    A-Z directly or behind one blank, and with no digit before it: either it
    opens the text or a non-digit precedes it. *)
Definition twoDigitTokenAt (text : jsstring) (i : nat) : bool :=
  match nth_error text i, nth_error text (i + 1) with
  | Some d1, Some d2 =>
      isDigit d1 && isDigit d2
      && letterAhead (skipn (i + 2) text)
      && match charBefore text i with
         | Some p => negb (isDigit p)
         | None => true
         end
  | _, _ => false
  end.

(** [make] is a prefix of [upperText] and [upperText] is longer. *)
Definition strictPrefix (make upperText : jsstring) : bool :=
  startsWith upperText make && (length make <? length upperText).

(** [text] with one space put in at offset [n]. *)
Definition insertSpaceAt (n : nat) (text : jsstring) : jsstring :=
  firstn n text ++ lit " " ++ skipn n text.

(** The year strings of the data model: four digits that read as a number
    from 1900 to 2099. *)
Definition isModelYear (y : jsstring) : Prop :=
  length y = 4 /\ Forall (fun c => isDigit c = true) y /\
  exists n, parseInt y = Some n /\ (1900 <= n <= 2099)%N.

(** The century that [extractYear] puts before the two digits [d1 d2]:
    "20" when they read as a number up to 30, "19" otherwise. *)
Definition centuryOf (d1 d2 : codeunit) : jsstring :=
  if (10 * digitValue d1 + digitValue d2 <=? 30)%N then lit "20" else lit "19".

(** *** Texts of the examples *)

(** ["2015 CHEVROLETIMPALA\nYARD ROW 3\n99 FORD F150"] *)
Definition endToEndInput : jsstring :=
  lit "2015 CHEVROLETIMPALA" ++ [LF] ++ lit "YARD ROW 3" ++ [LF]
  ++ lit "99 FORD F150".

(** ["Vehicle list\n2015 FORD F150"] *)
Definition headedInput : jsstring :=
  lit "Vehicle list" ++ [LF] ++ lit "2015 FORD F150".

(** ["2015 ....\n2004 FORD F150"] *)
Definition yearOnlyInput : jsstring :=
  lit "2015 ...." ++ [LF] ++ lit "2004 FORD F150".

Definition mkVehicle (y mk md ft : string) : Vehicle :=
  {| year := lit y; make := lit mk; model := lit md; fullText := lit ft |}.

End VehicleParser.

(** ** Facts about the string methods *)

Module JsFacts.
Import Js.

Section Closure.
(** Properties of code units that a string keeps through the methods. *)
Variable P : codeunit -> Prop.

Lemma Forall_dropWhile p s : Forall P s -> Forall P (dropWhile p s).
Proof.
  induction 1 as [| c r Hc Hr IH]; simpl; [constructor |].
  destruct (p c); [exact IH | constructor; assumption].
Qed.

Lemma Forall_trim s : Forall P s -> Forall P (trim s).
Proof.
  intro H. unfold trim, trimEnd, trimStart.
  apply Forall_rev, Forall_dropWhile, Forall_rev, Forall_dropWhile, H.
Qed.

Lemma Forall_skipn' n (s : jsstring) : Forall P s -> Forall P (skipn n s).
Proof.
  revert s. induction n as [| n IH]; intros s H; simpl; [exact H |].
  destruct H; [constructor | apply IH; assumption].
Qed.

Lemma Forall_firstn' n (s : jsstring) : Forall P s -> Forall P (firstn n s).
Proof.
  revert s. induction n as [| n IH]; intros s H; simpl; [constructor |].
  destruct H; constructor; [assumption | apply IH; assumption].
Qed.

Lemma Forall_replaceFrom re repl :
  Forall P repl ->
  forall s prev skip, Forall P s -> Forall P (replaceFrom re repl prev skip s).
Proof.
  intros Hrepl s. induction s as [| c r IH]; intros prev skip Hs; simpl.
  - constructor.
  - inversion Hs as [| ? ? Hc Hr]; subst.
    destruct skip as [| k]; [| apply IH; exact Hr].
    destruct (re prev (c :: r)) as [[| k] |].
    + constructor; [exact Hc | apply IH; exact Hr].
    + apply Forall_app. split; [exact Hrepl | apply IH; exact Hr].
    + constructor; [exact Hc | apply IH; exact Hr].
Qed.

Lemma Forall_replaceAll re repl s :
  Forall P repl -> Forall P s -> Forall P (replaceAll re repl s).
Proof. intros. apply Forall_replaceFrom; assumption. Qed.

Lemma Forall_splitRuns sep s :
  Forall P s -> Forall (Forall P) (splitRuns sep s).
Proof.
  induction 1 as [| c r Hc Hr IH]; simpl.
  - repeat constructor.
  - destruct (sep c).
    + destruct r as [| c' r'].
      * repeat constructor.
      * destruct (sep c'); [exact IH | constructor; [constructor | exact IH]].
    + destruct (splitRuns sep r) as [| p ps].
      * repeat constructor; assumption.
      * inversion IH; subst. constructor; [constructor |]; assumption.
Qed.

End Closure.

(** A substring shares its code units with the string. *)

Lemma startsWith_In s sub c :
  startsWith s sub = true -> In c sub -> In c s.
Proof.
  revert s. induction sub as [| p sub IH]; intros s H Hin; [destruct Hin |].
  destruct s as [| x s]; simpl in H; [discriminate |].
  apply andb_true_iff in H. destruct H as [Hx Hs].
  apply N.eqb_eq in Hx. subst x.
  destruct Hin as [-> | Hin]; [left; reflexivity | right; eauto].
Qed.

Lemma includes_In s sub c :
  includes s sub = true -> In c sub -> In c s.
Proof.
  induction s as [| x s IH]; intros H Hin; cbn [includes] in H;
    apply orb_true_iff in H; destruct H as [H | H].
  - eapply startsWith_In; eassumption.
  - discriminate.
  - eapply startsWith_In; eassumption.
  - right. apply IH; assumption.
Qed.

(** [startsWith], read as an equation. *)
Lemma startsWith_firstn s pre :
  startsWith s pre = true <-> firstn (length pre) s = pre.
Proof.
  revert s. induction pre as [| p pre IH]; intros s; simpl.
  - split; reflexivity.
  - destruct s as [| c s]; [split; discriminate |].
    rewrite andb_true_iff, N.eqb_eq, IH. split.
    + intros [-> ->]. reflexivity.
    + intros H. injection H as -> H. split; [reflexivity | exact H].
Qed.

(** *** The search of [match]

    [searchFrom] returns the least position at which the matcher answers,
    and nothing exactly when the matcher answers nowhere. *)

Lemma prevAt_cons prev c r k : prevAt prev (c :: r) (S k) = prevAt (Some c) r k.
Proof. destruct k; reflexivity. Qed.

Lemma searchFrom_least re s : forall prev i k len,
  k < length s ->
  re (prevAt prev s k) (skipn k s) = Some len ->
  (forall j, j < k -> re (prevAt prev s j) (skipn j s) = None) ->
  searchFrom re prev i s = Some (i + k, len).
Proof.
  induction s as [| c r IH]; intros prev i k len Hk Hre Hnone.
  - simpl in Hk. lia.
  - simpl. destruct k as [| k].
    + simpl in Hre. rewrite Hre. rewrite Nat.add_0_r. reflexivity.
    + pose proof (Hnone 0 (Nat.lt_0_succ k)) as H0. simpl in H0. rewrite H0.
      rewrite prevAt_cons in Hre. simpl skipn in Hre.
      replace (i + S k) with (S i + k) by lia.
      apply IH; [simpl in Hk; lia | exact Hre |].
      intros j Hj. specialize (Hnone (S j) ltac:(lia)).
      rewrite prevAt_cons in Hnone. exact Hnone.
Qed.

Lemma searchFrom_found re s : forall prev i j len,
  searchFrom re prev i s = Some (j, len) ->
  exists k, j = i + k /\ k < length s /\
            re (prevAt prev s k) (skipn k s) = Some len.
Proof.
  induction s as [| c r IH]; intros prev i j len H; simpl in H; [discriminate |].
  destruct (re prev (c :: r)) as [l |] eqn:E.
  - injection H as <- <-. exists 0. simpl. repeat split; [lia | lia | exact E].
  - apply IH in H. destruct H as [k [-> [Hk Hre]]].
    exists (S k). rewrite prevAt_cons. simpl. repeat split; [lia | lia | exact Hre].
Qed.

Lemma searchFrom_none re s : forall prev i,
  (forall k, k < length s -> re (prevAt prev s k) (skipn k s) = None) ->
  searchFrom re prev i s = None.
Proof.
  induction s as [| c r IH]; intros prev i H; simpl; [reflexivity |].
  pose proof (H 0 ltac:(simpl; lia)) as H0. simpl in H0. rewrite H0.
  apply IH. intros k Hk. specialize (H (S k) ltac:(simpl; lia)).
  rewrite prevAt_cons in H. exact H.
Qed.

End JsFacts.

(** ** Facts about the parser *)

Module ParserFacts.
Import Js VehicleParser JsFacts.

(** *** The two year patterns, position by position *)

Lemma isDigit_isWordChar c : isDigit c = true -> isWordChar c = true.
Proof. intro H. unfold isWordChar. rewrite H. reflexivity. Qed.

Lemma nth_error_skipn0 (s : jsstring) i :
  nth_error s i = nth_error (skipn i s) 0.
Proof. rewrite nth_error_skipn, Nat.add_0_r. reflexivity. Qed.

Lemma reFourDigitYear_at text i :
  reFourDigitYear (charBefore text i) (skipn i text)
  = if yearTokenAt text i then Some 4 else None.
Proof.
  unfold yearTokenAt.
  rewrite (nth_error_skipn0 text i), <- !nth_error_skipn.
  generalize (charBefore text i) as prev, (skipn i text) as l.
  intros prev [| c1 [| c2 [| d3 [| d4 rest]]]]; try reflexivity.
  replace (nth_error (c1 :: c2 :: d3 :: d4 :: rest) 4) with (hd_error rest)
    by (destruct rest; reflexivity).
  cbn [nth_error].
  unfold reFourDigitYear, atWordBoundary.
  generalize (isWordAt (hd_error rest)) as next. intro next.
  change (lit "19") with [49; 57]%N. change (lit "20") with [50; 48]%N.
  cbn [startsWith isWordAt]. change (hd_error (c1 :: c2 :: d3 :: d4 :: rest)) with (Some c1).
  cbn [isWordAt].
  generalize (isWordAt prev) as before.
  intros before. rewrite !andb_true_r.
  assert (W1 : ((c1 =? 49)%N || (c1 =? 50)%N) = true -> isWordChar c1 = true).
  { destruct (N.eqb_spec c1 49) as [-> | _]; [reflexivity |].
    destruct (N.eqb_spec c1 50) as [-> | _]; [reflexivity | discriminate]. }
  destruct (isDigit d4) eqn:E4;
    [rewrite (isDigit_isWordChar _ E4) | rewrite !andb_false_r; reflexivity].
  destruct (c1 =? 49)%N, (c1 =? 50)%N; cbn in W1;
    try rewrite (W1 eq_refl);
    destruct (c2 =? 57)%N, (c2 =? 48)%N, (isDigit d3), next, before;
    cbn; try reflexivity; destruct (isWordChar c1); reflexivity.
Qed.

Lemma reTwoDigitYear_at prev text k :
  reTwoDigitYear prev (skipn k text)
  = if twoDigitTokenAt text (S k) then Some 3 else None.
Proof.
  unfold twoDigitTokenAt. cbn [charBefore].
  replace (S k + 1) with (k + 2) by lia.
  replace (S k + 2) with (3 + k) by lia.
  replace (S k) with (k + 1) by lia.
  rewrite (nth_error_skipn0 text k), <- !nth_error_skipn, <- skipn_skipn.
  generalize (skipn k text) as l.
  intros [| c [| d1 [| d2 rest]]]; try reflexivity.
  cbn [nth_error skipn reTwoDigitYear].
  destruct (isDigit c), (isDigit d1), (isDigit d2), (letterAhead rest);
    reflexivity.
Qed.

(** *** [extractYear] *)

Lemma yearTokenAt_lt text i : yearTokenAt text i = true -> i < length text.
Proof.
  unfold yearTokenAt. intro H. apply nth_error_Some.
  destruct (nth_error text i); [discriminate | discriminate H].
Qed.

Lemma twoDigitTokenAt_lt text i : twoDigitTokenAt text i = true -> i < length text.
Proof.
  unfold twoDigitTokenAt. intro H. apply nth_error_Some.
  destruct (nth_error text i); [discriminate | discriminate H].
Qed.

(** The first rule: the leftmost year token is the year, and the text
    behind it, trimmed, is the remainder. *)
Lemma extractYear_four_digit text i :
  yearTokenAt text i = true ->
  (forall j, j < i -> yearTokenAt text j = false) ->
  extractYear text
  = Some {| YearData.year := firstn 4 (skipn i text);
            YearData.restOfText := trim (skipn (i + 4) text) |}.
Proof.
  intros Hi Hleast. unfold extractYear, regexMatch.
  rewrite (searchFrom_least reFourDigitYear text None 0 i 4).
  - reflexivity.
  - apply yearTokenAt_lt, Hi.
  - change (prevAt None text i) with (charBefore text i).
    rewrite reFourDigitYear_at, Hi. reflexivity.
  - intros j Hj. change (prevAt None text j) with (charBefore text j).
    rewrite reFourDigitYear_at, (Hleast j Hj). reflexivity.
Qed.

Lemma fourDigit_search_none text :
  (forall i, yearTokenAt text i = false) ->
  regexMatch reFourDigitYear text = None.
Proof.
  intro H. unfold regexMatch. rewrite searchFrom_none; [reflexivity |].
  intros k _. change (prevAt None text k) with (charBefore text k).
  rewrite reFourDigitYear_at, H. reflexivity.
Qed.

(** The second rule, as the source computes it: the token that starts at
    position [i], behind the non-digit at [i - 1], gives the year, and the
    remainder is the text from position [i] on, trimmed. *)
Lemma extractYear_two_digit text i d1 d2 :
  (forall j, yearTokenAt text j = false) ->
  0 < i ->
  twoDigitTokenAt text i = true ->
  (forall j, 0 < j < i -> twoDigitTokenAt text j = false) ->
  nth_error text i = Some d1 -> nth_error text (i + 1) = Some d2 ->
  extractYear text
  = Some {| YearData.year := centuryOf d1 d2 ++ [d1; d2];
            YearData.restOfText := trim (skipn i text) |}.
Proof.
  intros H4 Hpos Hi Hleast E1 E2.
  destruct i as [| k]; [lia |].
  unfold extractYear. rewrite (fourDigit_search_none _ H4).
  unfold regexMatch.
  rewrite (searchFrom_least reTwoDigitYear text None 0 k 3).
  - cbn [index whole Nat.add]. unfold twoDigitGroup. cbn [whole].
    assert (El : exists c rest, skipn k text = c :: d1 :: d2 :: rest).
    { rewrite (nth_error_skipn0 text (S k)) in E1.
      replace (S k + 1) with (2 + k) in E2 by lia.
      rewrite (nth_error_skipn0 text (2 + k)) in E2.
      replace (S k) with (1 + k) in E1 by lia.
      rewrite <- skipn_skipn in E1, E2.
      destruct (skipn k text) as [| c [| x [| y rest]]]; try discriminate.
      cbn in E1, E2. injection E1 as ->. injection E2 as ->. eauto. }
    destruct El as [c [rest El]]. rewrite El.
    cbn [firstn skipn length Nat.add Nat.sub].
    unfold twoDigitTokenAt in Hi. rewrite E1, E2 in Hi.
    apply andb_true_iff in Hi. destruct Hi as [Hi _].
    apply andb_true_iff in Hi. destruct Hi as [Hi _].
    apply andb_true_iff in Hi. destruct Hi as [D1 D2].
    unfold parseInt. cbn [takeWhile]. rewrite D1, D2. cbn [fold_left].
    unfold substring. replace (k + 3 - 2) with (S k) by lia.
    unfold centuryOf. rewrite N.mul_0_r, N.add_0_l.
    cbn [N.leb]. rewrite (proj2 (N.leb_le 0 _) (N.le_0_l _)). cbn [andb].
    destruct (_ <=? 30)%N; reflexivity.
  - assert (S k < length text) by (apply twoDigitTokenAt_lt, Hi). lia.
  - rewrite reTwoDigitYear_at, Hi. reflexivity.
  - intros j Hj. rewrite reTwoDigitYear_at, Hleast; [reflexivity | lia].
Qed.

(** *** The year of a record *)

Lemma isDigit_bounds c : isDigit c = true -> (48 <= c <= 57)%N.
Proof.
  unfold isDigit, inRange. intro H. apply andb_true_iff in H.
  destruct H as [H1 H2]. apply N.leb_le in H1. apply N.leb_le in H2. lia.
Qed.

Lemma isModelYear_century c1 c2 d3 d4 :
  (c1 = 49%N /\ c2 = 57%N) \/ (c1 = 50%N /\ c2 = 48%N) ->
  isDigit d3 = true -> isDigit d4 = true ->
  isModelYear [c1; c2; d3; d4].
Proof.
  intros Hc D3 D4. split; [reflexivity |]. split.
  - destruct Hc as [[-> ->] | [-> ->]]; repeat constructor; assumption.
  - pose proof (isDigit_bounds _ D3). pose proof (isDigit_bounds _ D4).
    unfold parseInt.
    destruct Hc as [[-> ->] | [-> ->]]; cbn [takeWhile];
      change (isDigit 49%N) with true; change (isDigit 57%N) with true;
      change (isDigit 50%N) with true; change (isDigit 48%N) with true;
      cbn iota; rewrite D3, D4; eexists; (split; [reflexivity |]);
      cbn [fold_left]; unfold digitValue; lia.
Qed.

Lemma yearTokenAt_shape text i :
  yearTokenAt text i = true ->
  exists c1 c2 d3 d4, firstn 4 (skipn i text) = [c1; c2; d3; d4] /\
    ((c1 = 49%N /\ c2 = 57%N) \/ (c1 = 50%N /\ c2 = 48%N)) /\
    isDigit d3 = true /\ isDigit d4 = true.
Proof.
  unfold yearTokenAt.
  rewrite (nth_error_skipn0 text i), <- !nth_error_skipn.
  destruct (skipn i text) as [| c1 [| c2 [| d3 [| d4 rest]]]];
    try discriminate.
  cbn [nth_error firstn]. intro H.
  apply andb_true_iff in H. destruct H as [H _].
  apply andb_true_iff in H. destruct H as [H _].
  apply andb_true_iff in H. destruct H as [H D4].
  apply andb_true_iff in H. destruct H as [H D3].
  exists c1, c2, d3, d4. split; [reflexivity |]. split; [| auto].
  apply orb_true_iff in H.
  destruct H as [H | H]; apply andb_true_iff in H; destruct H as [Ha Hb];
    apply N.eqb_eq in Ha; apply N.eqb_eq in Hb; auto.
Qed.

Lemma twoDigitTokenAt_shape text k :
  twoDigitTokenAt text (S k) = true ->
  exists c d1 d2 rest, skipn k text = c :: d1 :: d2 :: rest /\
    isDigit c = false /\ isDigit d1 = true /\ isDigit d2 = true /\
    letterAhead rest = true.
Proof.
  unfold twoDigitTokenAt. cbn [charBefore].
  replace (S k + 1) with (k + 2) by lia.
  replace (S k + 2) with (3 + k) by lia.
  replace (S k) with (k + 1) by lia.
  rewrite (nth_error_skipn0 text k), <- !nth_error_skipn, <- skipn_skipn.
  destruct (skipn k text) as [| c [| d1 [| d2 rest]]]; try discriminate.
  cbn [nth_error skipn]. intro H.
  apply andb_true_iff in H. destruct H as [H Hc].
  apply andb_true_iff in H. destruct H as [H Hl].
  apply andb_true_iff in H. destruct H as [D1 D2].
  apply negb_true_iff in Hc.
  exists c, d1, d2, rest. auto.
Qed.

Lemma centuryOf_cases d1 d2 :
  centuryOf d1 d2 = lit "20" \/ centuryOf d1 d2 = lit "19".
Proof. unfold centuryOf. destruct (_ <=? 30)%N; auto. Qed.

(** What [extractYear] returns, whichever rule gave it. *)
Lemma extractYear_shape text yd :
  extractYear text = Some yd ->
  (exists i, yearTokenAt text i = true /\
     YearData.year yd = firstn 4 (skipn i text) /\
     YearData.restOfText yd = trim (skipn (i + 4) text))
  \/
  (exists k c d1 d2 rest, skipn k text = c :: d1 :: d2 :: rest /\
     isDigit d1 = true /\ isDigit d2 = true /\
     YearData.year yd = centuryOf d1 d2 ++ [d1; d2] /\
     YearData.restOfText yd = trim (skipn (S k) text)).
Proof.
  unfold extractYear, regexMatch.
  destruct (searchFrom reFourDigitYear None 0 text) as [[i len] |] eqn:E4.
  - apply searchFrom_found in E4. destruct E4 as [k [-> [Hk Hre]]].
    change (prevAt None text k) with (charBefore text k) in Hre.
    rewrite reFourDigitYear_at in Hre.
    destruct (yearTokenAt text k) eqn:Ht; [| discriminate].
    injection Hre as <-. intros [= <-]. left. exists k. auto.
  - destruct (searchFrom reTwoDigitYear None 0 text) as [[i len] |] eqn:E2;
      [| discriminate].
    apply searchFrom_found in E2. destruct E2 as [k [-> [Hk Hre]]].
    rewrite reTwoDigitYear_at in Hre.
    destruct (twoDigitTokenAt text (S k)) eqn:Ht; [| discriminate].
    injection Hre as <-.
    destruct (twoDigitTokenAt_shape _ _ Ht) as [c [d1 [d2 [rest [El [_ [D1 [D2 _]]]]]]]].
    intros [= <-]. right. exists k, c, d1, d2, rest.
    cbn [index whole Nat.add YearData.year YearData.restOfText].
    unfold twoDigitGroup. cbn [whole]. rewrite El.
    cbn [firstn skipn length Nat.add Nat.sub].
    unfold parseInt. cbn [takeWhile]. rewrite D1, D2. cbn [fold_left].
    unfold substring. replace (k + 3 - 2) with (S k) by lia.
    unfold centuryOf. rewrite N.mul_0_r, N.add_0_l.
    rewrite (proj2 (N.leb_le 0 _) (N.le_0_l _)). cbn [andb].
    repeat split; try assumption.
    destruct (_ <=? 30)%N; reflexivity.
Qed.

Lemma extractYear_year text yd :
  extractYear text = Some yd -> isModelYear (YearData.year yd).
Proof.
  intro H. apply extractYear_shape in H.
  destruct H as [[i [Ht [-> _]]] | [k [c [d1 [d2 [rest [_ [D1 [D2 [-> _]]]]]]]]]].
  - destruct (yearTokenAt_shape _ _ Ht) as [c1 [c2 [d3 [d4 [-> [Hc [D3 D4]]]]]]].
    apply isModelYear_century; assumption.
  - destruct (centuryOf_cases d1 d2) as [-> | ->];
      apply isModelYear_century; auto.
Qed.

Lemma extractYear_rest_closed (P : codeunit -> Prop) text yd :
  Forall P text -> extractYear text = Some yd ->
  Forall P (YearData.restOfText yd).
Proof.
  intros HP H. apply extractYear_shape in H.
  destruct H as [[i [_ [_ ->]]] | [k [c [d1 [d2 [rest [_ [_ [_ [_ ->]]]]]]]]]];
    apply Forall_trim, Forall_skipn', HP.
Qed.

(** *** The loop of [parseVehicles] *)

Section Loop.
Variable toUpperCase : jsstring -> jsstring.

(** A turn of the loop only appends: the records it adds do not depend on
    the records gathered before. *)
Lemma assemble_appends vehicles trimmedLine :
  assemble toUpperCase vehicles trimmedLine
  = vehicles ++ assemble toUpperCase [] trimmedLine.
Proof.
  unfold assemble.
  destruct (extractYear trimmedLine) as [yd |].
  - destruct (2 <=? _); [reflexivity |].
    destruct (_ =? 1); [reflexivity | symmetry; apply app_nil_r].
  - destruct (0 <? _); [reflexivity | symmetry; apply app_nil_r].
Qed.

Lemma processLine_appends vehicles line :
  processLine toUpperCase vehicles line
  = vehicles ++ processLine toUpperCase [] line.
Proof.
  unfold processLine. destruct (skipsLine (trim line)).
  - symmetry. apply app_nil_r.
  - apply assemble_appends.
Qed.

Lemma fold_processLine lines : forall vehicles,
  fold_left (processLine toUpperCase) lines vehicles
  = vehicles ++ flat_map (processLine toUpperCase []) lines.
Proof.
  induction lines as [| line lines IH]; intro vehicles; simpl.
  - symmetry. apply app_nil_r.
  - rewrite IH, processLine_appends, <- app_assoc. reflexivity.
Qed.

(** The output is the records of the lines, in the order of the lines. *)
Lemma parseVehicles_by_line text :
  parseVehicles toUpperCase text
  = flat_map (processLine toUpperCase [])
      (splitLines (fixOCRErrors toUpperCase text)).
Proof. unfold parseVehicles. apply fold_processLine. Qed.

(** A line that adds no record can be left out. *)
Lemma parseVehicles_without_line text before line after :
  splitLines (fixOCRErrors toUpperCase text) = before ++ line :: after ->
  processLine toUpperCase [] line = [] ->
  parseVehicles toUpperCase text
  = fold_left (processLine toUpperCase) (before ++ after) [].
Proof.
  intros Hlines Hline.
  rewrite parseVehicles_by_line, Hlines, fold_processLine.
  rewrite !flat_map_app. cbn [flat_map]. rewrite Hline. reflexivity.
Qed.

(** A property of the records of every line is a property of the output. *)
Lemma parseVehicles_Forall (Q : Vehicle -> Prop) text :
  (forall trimmedLine, Forall Q (assemble toUpperCase [] trimmedLine)) ->
  Forall Q (parseVehicles toUpperCase text).
Proof.
  intro H. rewrite parseVehicles_by_line.
  apply Forall_flat_map, Forall_forall. intros line _.
  unfold processLine. destruct (skipsLine (trim line)); [constructor | apply H].
Qed.

Lemma assemble_fullText trimmedLine :
  Forall (fun v => fullText v <> []) (assemble toUpperCase [] trimmedLine).
Proof.
  unfold assemble.
  destruct (extractYear trimmedLine) as [yd |].
  - destruct (2 <=? _); [| destruct (_ =? 1)]; repeat constructor;
      cbn [fullText]; intro E; apply app_eq_nil in E; destruct E as [_ E];
      discriminate E.
  - destruct (cleanText trimmedLine) as [| c r] eqn:E; cbn [length Nat.ltb Nat.leb];
      repeat constructor. cbn [fullText]. discriminate.
Qed.

Lemma assemble_year trimmedLine :
  Forall (fun v => year v = [] \/ isModelYear (year v))
    (assemble toUpperCase [] trimmedLine).
Proof.
  unfold assemble.
  destruct (extractYear trimmedLine) as [yd |] eqn:E.
  - pose proof (extractYear_year _ _ E) as Hy.
    destruct (2 <=? _); [| destruct (_ =? 1)];
      [apply Forall_cons; [right; exact Hy | apply Forall_nil] ..
      | apply Forall_nil].
  - destruct (0 <? _); [| apply Forall_nil].
    apply Forall_cons; [left; reflexivity | apply Forall_nil].
Qed.

End Loop.

(** *** Upper-casing *)

Lemma upperAscii_not_lower c : isLowerAZ (upperAscii c) = false.
Proof.
  unfold upperAscii.
  destruct (isLowerAZ c) eqn:E; [| exact E].
  unfold isLowerAZ, inRange in *.
  apply andb_true_iff in E. destruct E as [E1 E2].
  apply N.leb_le in E1. apply N.leb_le in E2.
  apply andb_false_iff. left. apply N.leb_gt. lia.
Qed.

Lemma upperAscii_lt c : (c < 128)%N -> (upperAscii c < 128)%N.
Proof. unfold upperAscii. destruct (isLowerAZ c); lia. Qed.

(** Upper-casing code unit by code unit is [toUpperCase] on ASCII text. *)
Lemma map_upperAscii_upperCasesAscii : upperCasesAscii (map upperAscii).
Proof. intros s _. reflexivity. Qed.

Lemma map_upperAscii_yieldsNoLowerAZ : yieldsNoLowerAZ (map upperAscii).
Proof.
  intros s c H. apply in_map_iff in H. destruct H as [x [<- _]].
  apply upperAscii_not_lower.
Qed.

Lemma isAscii_check s :
  forallb (fun c => (c <? 128)%N) s = true -> isAscii s.
Proof.
  intro H. apply Forall_forall. intros c Hc.
  apply N.ltb_lt. exact (proj1 (forallb_forall _ s) H c Hc).
Qed.

Lemma Forall_lit_check (P : codeunit -> Prop) (p : codeunit -> bool) s :
  (forall c, p c = true -> P c) -> forallb p s = true -> Forall P s.
Proof.
  intros Hp H. apply Forall_forall. intros c Hc.
  apply Hp. exact (proj1 (forallb_forall _ s) H c Hc).
Qed.

Lemma fold_left_ext_in {A B} (f g : A -> B -> A) l : forall a,
  (forall acc x, In x l -> f acc x = g acc x) ->
  fold_left f l a = fold_left g l a.
Proof.
  induction l as [| x l IH]; intros a H; simpl; [reflexivity |].
  rewrite (H a x (or_introl eq_refl)). apply IH.
  intros acc y Hy. apply H. right. exact Hy.
Qed.

Section Normalizer.
Variable toUpperCase : jsstring -> jsstring.

(** The substitutions of [fixOCRErrors] write digits only, so a property
    of code units that the digits 0, 1 and 2 have goes from the upper-cased
    text to the normalized text. *)
Lemma fixOCRErrors_closed (P : codeunit -> Prop) text :
  P 48%N -> P 49%N -> P 50%N ->
  Forall P (toUpperCase text) -> Forall P (fixOCRErrors toUpperCase text).
Proof.
  intros P0 P1 P2 H. unfold fixOCRErrors.
  repeat apply Forall_replaceAll; try exact H; repeat constructor; assumption.
Qed.

Lemma splitLines_closed (P : codeunit -> Prop) fixedText line :
  Forall P fixedText -> In line (splitLines fixedText) -> Forall P line.
Proof.
  intros H Hin. unfold splitLines in Hin. apply filter_In in Hin.
  destruct Hin as [Hin _].
  pose proof (Forall_splitRuns P isNewline fixedText H) as Hall.
  rewrite Forall_forall in Hall. apply Hall, Hin.
Qed.

(** On ASCII text the parser is the parser over ASCII upper-casing. *)
Lemma fixOCRErrors_ascii text :
  upperCasesAscii toUpperCase -> isAscii text ->
  fixOCRErrors toUpperCase text = fixOCRErrors (map upperAscii) text
  /\ isAscii (fixOCRErrors toUpperCase text).
Proof.
  intros Hup Ht. split.
  - unfold fixOCRErrors. rewrite (Hup text Ht). reflexivity.
  - apply fixOCRErrors_closed; try (cbv; reflexivity).
    rewrite (Hup text Ht). apply Forall_forall. intros c Hc.
    apply in_map_iff in Hc. destruct Hc as [x [<- Hx]].
    apply upperAscii_lt. unfold isAscii in Ht. rewrite Forall_forall in Ht. auto.
Qed.

Lemma splitMakeModel_ascii text :
  upperCasesAscii toUpperCase -> isAscii text ->
  splitMakeModel toUpperCase text = splitMakeModel (map upperAscii) text.
Proof. intros Hup Ht. unfold splitMakeModel. rewrite (Hup text Ht). reflexivity. Qed.

Lemma assemble_ascii vehicles trimmedLine :
  upperCasesAscii toUpperCase -> isAscii trimmedLine ->
  assemble toUpperCase vehicles trimmedLine
  = assemble (map upperAscii) vehicles trimmedLine.
Proof.
  intros Hup Ht. unfold assemble.
  destruct (extractYear trimmedLine) as [yd |] eqn:E; [| reflexivity].
  rewrite (splitMakeModel_ascii _ Hup (extractYear_rest_closed _ _ _ Ht E)).
  reflexivity.
Qed.

Lemma parseVehicles_ascii text :
  upperCasesAscii toUpperCase -> isAscii text ->
  parseVehicles toUpperCase text = parseVehicles (map upperAscii) text.
Proof.
  intros Hup Ht. unfold parseVehicles.
  destruct (fixOCRErrors_ascii text Hup Ht) as [<- Hfixed].
  apply fold_left_ext_in. intros vehicles line Hin. unfold processLine.
  destruct (skipsLine (trim line)); [reflexivity |].
  apply assemble_ascii; [exact Hup |].
  apply Forall_trim. eapply splitLines_closed; eassumption.
Qed.

(** The marker ["Vehicle"] holds the letter e, which normalized text never
    holds. *)
Lemma includes_Vehicle_false line :
  Forall (fun c => isLowerAZ c = false) line ->
  includes line (lit "Vehicle") = false.
Proof.
  intro H. destruct (includes line (lit "Vehicle")) eqn:E; [| reflexivity].
  assert (Hin : In 101%N line).
  { apply (includes_In _ _ _ E). cbv. tauto. }
  rewrite Forall_forall in H. specialize (H _ Hin). discriminate H.
Qed.

Lemma processLine_without_marker text line vehicles :
  yieldsNoLowerAZ toUpperCase ->
  In line (splitLines (fixOCRErrors toUpperCase text)) ->
  processLine toUpperCase vehicles line
  = processLineWithoutVehicleMarker toUpperCase vehicles line.
Proof.
  intros Hup Hin.
  assert (Hline : Forall (fun c => isLowerAZ c = false) (trim line)).
  { apply Forall_trim. eapply splitLines_closed; [| exact Hin].
    apply fixOCRErrors_closed; try reflexivity.
    apply Forall_forall. intros c Hc. exact (Hup _ _ Hc). }
  unfold processLine, processLineWithoutVehicleMarker, skipsLine.
  rewrite (includes_Vehicle_false _ Hline), orb_false_r. reflexivity.
Qed.

End Normalizer.


(** *** Trimming *)

Lemma isDigit_not_space c : isDigit c = true -> isSpace c = false.
Proof.
  intro H. apply isDigit_bounds in H. unfold isSpace, inRange.
  repeat (apply orb_false_iff; split);
    first [ apply N.eqb_neq; lia
          | apply andb_false_iff; right; apply N.leb_gt; lia
          | apply andb_false_iff; left; apply N.leb_gt; lia ].
Qed.

Lemma dropWhile_snoc p l x :
  p x = false -> dropWhile p (l ++ [x]) = dropWhile p l ++ [x].
Proof.
  intro Hx. induction l as [| c l IH]; simpl.
  - rewrite Hx. reflexivity.
  - destruct (p c); [exact IH | reflexivity].
Qed.

Lemma trimEnd_cons x s : isSpace x = false -> trimEnd (x :: s) = x :: trimEnd s.
Proof.
  intro Hx. unfold trimEnd. cbn [rev].
  rewrite (dropWhile_snoc _ _ _ Hx), rev_unit. reflexivity.
Qed.

Lemma trim_cons x s : isSpace x = false -> trim (x :: s) = x :: trimEnd s.
Proof.
  intro Hx. unfold trim, trimStart. cbn [dropWhile]. rewrite Hx.
  apply trimEnd_cons, Hx.
Qed.

Lemma length_dropWhile_app p l m :
  length (dropWhile p l) <= length (dropWhile p (l ++ m)).
Proof.
  induction l as [| c l IH]; simpl; [lia |].
  destruct (p c); [exact IH |]. simpl. rewrite length_app. lia.
Qed.

Lemma length_trimEnd_cons c s : length (trimEnd s) <= length (trimEnd (c :: s)).
Proof.
  unfold trimEnd. cbn [rev]. rewrite !length_rev.
  apply length_dropWhile_app.
Qed.

Lemma length_trim_le s : length (trim s) <= length (trimEnd s).
Proof.
  unfold trim, trimStart. induction s as [| c s IH]; simpl; [lia |].
  destruct (isSpace c); [| lia].
  pose proof (length_trimEnd_cons c s). lia.
Qed.

(** *** Checks by evaluation over the positions of a text *)

Lemma no_yearToken_check text :
  forallb (fun i => negb (yearTokenAt text i)) (seq 0 (length text)) = true ->
  forall i, yearTokenAt text i = false.
Proof.
  intros H i. destruct (yearTokenAt text i) eqn:E; [| reflexivity].
  pose proof (yearTokenAt_lt _ _ E) as Hlt.
  assert (Hin : In i (seq 0 (length text))) by (apply in_seq; lia).
  pose proof (proj1 (forallb_forall _ _) H i Hin) as Hi.
  cbv beta in Hi. rewrite E in Hi. discriminate Hi.
Qed.

Lemma no_twoDigitToken_check text (from : nat -> bool) :
  forallb (fun i => negb (from i && twoDigitTokenAt text i))
    (seq 0 (length text)) = true ->
  forall i, from i = true -> twoDigitTokenAt text i = false.
Proof.
  intros H i Hfrom. destruct (twoDigitTokenAt text i) eqn:E; [| reflexivity].
  pose proof (twoDigitTokenAt_lt _ _ E) as Hlt.
  assert (Hin : In i (seq 0 (length text))) by (apply in_seq; lia).
  pose proof (proj1 (forallb_forall _ _) H i Hin) as Hi.
  cbv beta in Hi. rewrite E, Hfrom in Hi. discriminate Hi.
Qed.

(** *** [splitMakeModel] *)

Lemma splitMakeModelFrom_first text upperText make after : forall before,
  strictPrefix make upperText = true ->
  (forall m, In m before -> strictPrefix m upperText = false) ->
  splitMakeModelFrom (before ++ make :: after) text upperText
  = make ++ lit " " ++ skipn (length make) text.
Proof.
  induction before as [| m before IH]; intros Hmake Hbefore.
  - cbn [app splitMakeModelFrom]. unfold strictPrefix in Hmake.
    rewrite Hmake. reflexivity.
  - cbn [app splitMakeModelFrom].
    pose proof (Hbefore m (or_introl eq_refl)) as Hm.
    unfold strictPrefix in Hm. rewrite Hm.
    apply IH; [exact Hmake |]. intros m' Hin. apply Hbefore. right. exact Hin.
Qed.

Lemma splitMakeModelFrom_none text upperText : forall makes,
  (forall m, In m makes -> strictPrefix m upperText = false) ->
  splitMakeModelFrom makes text upperText = text.
Proof.
  induction makes as [| m makes IH]; intro H; [reflexivity |].
  cbn [splitMakeModelFrom].
  pose proof (H m (or_introl eq_refl)) as Hm.
  unfold strictPrefix in Hm. rewrite Hm.
  apply IH. intros m' Hin. apply H. right. exact Hin.
Qed.

(** ** The properties of the specification *)

(** C1: on the end-to-end example the parser returns two records, the
    second being the fallback record of the line "99 FORD F150" (no year,
    make or model), since the two-digit rule does not match at the start of a
    line. *)
Theorem parseVehicles_end_to_end (toUpperCase : jsstring -> jsstring) :
  upperCasesAscii toUpperCase ->
  parseVehicles toUpperCase endToEndInput
  = [ mkVehicle "2015" "CHEVROLET" "IMPALA" "2015 CHEVROLET IMPALA";
      mkVehicle "" "" "" "99 FORD F150" ].
Proof.
  intro Hup. rewrite (parseVehicles_ascii _ _ Hup).
  - vm_compute. reflexivity.
  - apply isAscii_check. vm_compute. reflexivity.
Qed.

Lemma parseVehicles_end_to_end_witness :
  parseVehicles (map upperAscii) endToEndInput
  = [ mkVehicle "2015" "CHEVROLET" "IMPALA" "2015 CHEVROLET IMPALA";
      mkVehicle "" "" "" "99 FORD F150" ].
Proof.
  exact (parseVehicles_end_to_end (map upperAscii) map_upperAscii_upperCasesAscii).
Defined.

(** C2: where the two-digit rule fires, on the token that starts at
    position [i], the remainder that [extractYear] returns is the text from
    position [i] on, trimmed: it begins with the two digits of the token,
    and so differs from the trimmed text behind the token. *)
Theorem extractYear_two_digit_keeps_digits text i d1 d2 :
  (forall j, yearTokenAt text j = false) ->
  0 < i ->
  twoDigitTokenAt text i = true ->
  (forall j, 0 < j < i -> twoDigitTokenAt text j = false) ->
  nth_error text i = Some d1 -> nth_error text (i + 1) = Some d2 ->
  extractYear text
  = Some {| YearData.year := centuryOf d1 d2 ++ [d1; d2];
            YearData.restOfText := d1 :: d2 :: trimEnd (skipn (i + 2) text) |}
  /\ d1 :: d2 :: trimEnd (skipn (i + 2) text) <> trim (skipn (i + 2) text).
Proof.
  intros H4 Hpos Hi Hleast E1 E2.
  rewrite (extractYear_two_digit text i d1 d2 H4 Hpos Hi Hleast E1 E2).
  assert (D : isDigit d1 = true /\ isDigit d2 = true).
  { unfold twoDigitTokenAt in Hi. rewrite E1, E2 in Hi.
    apply andb_true_iff in Hi. destruct Hi as [Hi _].
    apply andb_true_iff in Hi. destruct Hi as [Hi _].
    apply andb_true_iff in Hi. exact Hi. }
  destruct D as [D1 D2].
  assert (El : skipn i text = d1 :: d2 :: skipn (i + 2) text).
  { rewrite (nth_error_skipn0 text i) in E1.
    replace (i + 1) with (1 + i) in E2 by lia.
    rewrite (nth_error_skipn0 text (1 + i)), <- skipn_skipn in E2.
    replace (i + 2) with (2 + i) by lia. rewrite <- skipn_skipn.
    destruct (skipn i text) as [| x [| y rest]]; try discriminate.
    cbn in E1, E2. injection E1 as ->. injection E2 as ->. reflexivity. }
  split.
  - rewrite El, (trim_cons _ _ (isDigit_not_space _ D1)),
      (trimEnd_cons _ _ (isDigit_not_space _ D2)). reflexivity.
  - intro E. apply (f_equal (@length codeunit)) in E. cbn [length] in E.
    pose proof (length_trim_le (skipn (i + 2) text)). lia.
Qed.

Lemma extractYear_two_digit_keeps_digits_witness :
  extractYear (lit ". 05CHEVROLET IMPALA")
  = Some {| YearData.year := lit "2005";
            YearData.restOfText := lit "05CHEVROLET IMPALA" |}
  /\ lit "05CHEVROLET IMPALA" <> lit "CHEVROLET IMPALA".
Proof.
  refine (extractYear_two_digit_keeps_digits (lit ". 05CHEVROLET IMPALA") 2
            48%N 53%N _ _ eq_refl _ eq_refl eq_refl).
  - apply no_yearToken_check. vm_compute. reflexivity.
  - lia.
  - intros j Hj.
    apply (no_twoDigitToken_check (lit ". 05CHEVROLET IMPALA")
             (fun j => (0 <? j) && (j <? 2))).
    + vm_compute. reflexivity.
    + apply andb_true_iff. split; apply Nat.ltb_lt; lia.
Defined.

(** C3: the marker "Vehicle" never matches a line of the normalized text,
    so the parser returns what the parser without that marker returns. *)
Theorem Vehicle_marker_never_matches (toUpperCase : jsstring -> jsstring) :
  yieldsNoLowerAZ toUpperCase ->
  forall text,
    parseVehicles toUpperCase text
    = parseVehiclesWithoutVehicleMarker toUpperCase text.
Proof.
  intros Hup text. unfold parseVehicles, parseVehiclesWithoutVehicleMarker.
  apply fold_left_ext_in. intros vehicles line Hin.
  apply (processLine_without_marker toUpperCase text line vehicles Hup Hin).
Qed.

Lemma Vehicle_marker_never_matches_witness :
  parseVehicles (map upperAscii) headedInput
  = parseVehiclesWithoutVehicleMarker (map upperAscii) headedInput.
Proof.
  exact (Vehicle_marker_never_matches (map upperAscii)
           map_upperAscii_yieldsNoLowerAZ headedInput).
Defined.

(** C4: no record of the output has an empty [fullText], and a line
    without a year that is empty after cleaning adds no record. *)
Theorem fullText_never_empty (toUpperCase : jsstring -> jsstring) text :
  Forall (fun v => fullText v <> []) (parseVehicles toUpperCase text)
  /\ (forall vehicles line,
        skipsLine (trim line) = false ->
        extractYear (trim line) = None ->
        cleanText (trim line) = [] ->
        processLine toUpperCase vehicles line = vehicles).
Proof.
  split.
  - apply parseVehicles_Forall. apply assemble_fullText.
  - intros vehicles line Hskip Hyear Hclean.
    unfold processLine, assemble. rewrite Hskip, Hyear, Hclean. reflexivity.
Qed.

Lemma fullText_never_empty_witness :
  processLine (map upperAscii) [] (lit ".....") = [].
Proof.
  exact (proj2 (fullText_never_empty (map upperAscii) (lit "....."))
           [] (lit ".....") eq_refl eq_refl eq_refl).
Defined.

(** C5: when a 4-digit token 19xx or 20xx between word boundaries starts at
    position [i] of the line, and none starts before [i], [extractYear]
    returns that token as the year and the text behind it, trimmed, as the
    remainder, whatever the two-digit rule would find. *)
Theorem extractYear_four_digit_first text i :
  yearTokenAt text i = true ->
  (forall j, j < i -> yearTokenAt text j = false) ->
  extractYear text
  = Some {| YearData.year := firstn 4 (skipn i text);
            YearData.restOfText := trim (skipn (i + 4) text) |}.
Proof. apply extractYear_four_digit. Qed.

Lemma extractYear_four_digit_first_witness :
  extractYear (lit "2015 CHEVROLET IMPALA")
  = Some {| YearData.year := lit "2015";
            YearData.restOfText := lit "CHEVROLET IMPALA" |}
  /\ (twoDigitTokenAt (lit ". 05CHEVY 2004 IMPALA") 2 = true
      /\ extractYear (lit ". 05CHEVY 2004 IMPALA")
         = Some {| YearData.year := lit "2004";
                   YearData.restOfText := lit "IMPALA" |}).
Proof.
  split; [| split; [reflexivity |]].
  - refine (extractYear_four_digit_first (lit "2015 CHEVROLET IMPALA") 0
              eq_refl _).
    intros j Hj. lia.
  - refine (extractYear_four_digit_first (lit ". 05CHEVY 2004 IMPALA") 10
              eq_refl _).
    intros j Hj.
    assert (Hall : forallb (fun j => negb ((j <? 10)
                      && yearTokenAt (lit ". 05CHEVY 2004 IMPALA") j))
                     (seq 0 10) = true) by (vm_compute; reflexivity).
    assert (Hin : In j (seq 0 10)) by (apply in_seq; lia).
    pose proof (proj1 (forallb_forall _ _) Hall j Hin) as H.
    cbv beta in H. rewrite (proj2 (Nat.ltb_lt j 10) Hj) in H.
    apply negb_true_iff in H. exact H.
Defined.

(** C6: when some listed make is a strict prefix of the upper-cased text,
    [splitMakeModel] returns the first such make, one space, and the text
    from the length of the make on; this is the text with one space put in
    behind the make when the text itself starts with the make.  When no
    listed make is a strict prefix of the upper-cased text, the text is
    returned as it is. *)
Theorem splitMakeModel_first_make (toUpperCase : jsstring -> jsstring) text :
  (forall before make after,
     COMMON_MAKES = before ++ make :: after ->
     strictPrefix make (toUpperCase text) = true ->
     (forall m, In m before -> strictPrefix m (toUpperCase text) = false) ->
     splitMakeModel toUpperCase text
     = make ++ lit " " ++ substring text (length make)
     /\ (startsWith text make = true ->
         splitMakeModel toUpperCase text = insertSpaceAt (length make) text))
  /\ ((forall m, In m COMMON_MAKES ->
         strictPrefix m (toUpperCase text) = false) ->
      splitMakeModel toUpperCase text = text).
Proof.
  split.
  - intros before make after Hlist Hmake Hbefore.
    assert (E : splitMakeModel toUpperCase text
                = make ++ lit " " ++ substring text (length make)).
    { unfold splitMakeModel. rewrite Hlist.
      apply splitMakeModelFrom_first; assumption. }
    split; [exact E |].
    intro Hstarts. rewrite E. unfold insertSpaceAt, substring.
    apply startsWith_firstn in Hstarts. rewrite Hstarts. reflexivity.
  - intro Hnone. unfold splitMakeModel.
    apply splitMakeModelFrom_none, Hnone.
Qed.

Lemma splitMakeModel_first_make_witness :
  splitMakeModel (map upperAscii) (lit "CHEVROLETIMPALA")
  = lit "CHEVROLET IMPALA"
  /\ splitMakeModel (map upperAscii) (lit "IMPALA") = lit "IMPALA".
Proof.
  split.
  - refine (proj1 (proj1 (splitMakeModel_first_make (map upperAscii)
                            (lit "CHEVROLETIMPALA"))
                     [] (lit "CHEVROLET") (tl COMMON_MAKES)
                     eq_refl eq_refl _)).
    intros m [].
  - refine (proj2 (splitMakeModel_first_make (map upperAscii) (lit "IMPALA")) _).
    intros m Hin.
    assert (Hall : forallb (fun m => negb (strictPrefix m
                       (map upperAscii (lit "IMPALA")))) COMMON_MAKES = true)
      by (vm_compute; reflexivity).
    pose proof (proj1 (forallb_forall _ _) Hall m Hin) as H.
    apply negb_true_iff in H. exact H.
Defined.

(** C6, as the claim states it, fails on lower-case text: "FORD" is the
    first listed make that is a strict prefix of the upper-cased "fordf150",
    and the result is "FORD f150", not "ford f150". *)
Lemma splitMakeModel_lower_case_counterexample :
  find (fun make => strictPrefix make (map upperAscii (lit "fordf150")))
    COMMON_MAKES = Some (lit "FORD")
  /\ splitMakeModel (map upperAscii) (lit "fordf150") = lit "FORD f150"
  /\ splitMakeModel (map upperAscii) (lit "fordf150")
     <> insertSpaceAt (length (lit "FORD")) (lit "fordf150").
Proof.
  split; [vm_compute; reflexivity |].
  split; [vm_compute; reflexivity |].
  vm_compute. discriminate.
Qed.

(** C7: a line of the normalized text whose trimmed form has fewer than 5
    code units, or holds "YARD", "ROW" or "LOCAT", adds no record: the
    output is the output of the loop over the other lines. *)
Theorem short_or_marked_line_adds_no_record
    (toUpperCase : jsstring -> jsstring) text before line after :
  splitLines (fixOCRErrors toUpperCase text) = before ++ line :: after ->
  length (trim line) < 5
  \/ includes (trim line) (lit "YARD") = true
  \/ includes (trim line) (lit "ROW") = true
  \/ includes (trim line) (lit "LOCAT") = true ->
  parseVehicles toUpperCase text
  = fold_left (processLine toUpperCase) (before ++ after) [].
Proof.
  intros Hlines Hline.
  apply (parseVehicles_without_line toUpperCase text before line after Hlines).
  unfold processLine.
  replace (skipsLine (trim line)) with true; [reflexivity |].
  symmetry. unfold skipsLine.
  destruct Hline as [H | [H | [H | H]]].
  - apply Nat.ltb_lt in H. rewrite H. reflexivity.
  - rewrite H, !orb_true_r. reflexivity.
  - rewrite H, !orb_true_r. reflexivity.
  - rewrite H, !orb_true_r. reflexivity.
Qed.

Lemma short_or_marked_line_adds_no_record_witness :
  parseVehicles (map upperAscii) (lit "Ford") = []
  /\ parseVehicles (map upperAscii) endToEndInput
     = fold_left (processLine (map upperAscii))
         [lit "2015 CHEVROLETIMPALA"; lit "99 FORD F150"] [].
Proof.
  split.
  - refine (short_or_marked_line_adds_no_record (map upperAscii) (lit "Ford")
              [] (lit "FORD") [] eq_refl _).
    left. vm_compute. lia.
  - refine (short_or_marked_line_adds_no_record (map upperAscii) endToEndInput
              [lit "2015 CHEVROLETIMPALA"] (lit "YARD ROW 3")
              [lit "99 FORD F150"] eq_refl _).
    right. left. reflexivity.
Defined.

(** The line "Ford" alone gives no record, whatever the upper-casing does
    outside ASCII. *)
Lemma parseVehicles_Ford (toUpperCase : jsstring -> jsstring) :
  upperCasesAscii toUpperCase -> parseVehicles toUpperCase (lit "Ford") = [].
Proof.
  intro Hup. rewrite (parseVehicles_ascii _ _ Hup).
  - vm_compute. reflexivity.
  - apply isAscii_check. vm_compute. reflexivity.
Qed.

(** C8: a line that is not skipped, on which [extractYear] finds a year, and
    whose remainder has no word left after splitting and cleaning, adds no
    record: the output is the output of the loop over the other lines. *)
Theorem year_without_words_adds_no_record
    (toUpperCase : jsstring -> jsstring) text before line after yearData :
  splitLines (fixOCRErrors toUpperCase text) = before ++ line :: after ->
  skipsLine (trim line) = false ->
  extractYear (trim line) = Some yearData ->
  splitWords (cleanText (splitMakeModel toUpperCase
                           (YearData.restOfText yearData))) = [] ->
  parseVehicles toUpperCase text
  = fold_left (processLine toUpperCase) (before ++ after) [].
Proof.
  intros Hlines Hskip Hyear Hwords.
  apply (parseVehicles_without_line toUpperCase text before line after Hlines).
  unfold processLine, assemble. rewrite Hskip, Hyear, Hwords. reflexivity.
Qed.

Lemma year_without_words_adds_no_record_witness :
  parseVehicles (map upperAscii) yearOnlyInput
  = [ mkVehicle "2004" "FORD" "F150" "2004 FORD F150" ].
Proof.
  exact (year_without_words_adds_no_record (map upperAscii) yearOnlyInput
           [] (lit "2015 ....") [lit "2004 FORD F150"]
           {| YearData.year := lit "2015"; YearData.restOfText := lit "...." |}
           eq_refl eq_refl eq_refl eq_refl).
Defined.

(** C9: the year of every record of the output is empty or four digits that
    read as a number from 1900 to 2099. *)
Theorem year_empty_or_model_year (toUpperCase : jsstring -> jsstring) text :
  Forall (fun v => year v = [] \/ isModelYear (year v))
    (parseVehicles toUpperCase text).
Proof. apply parseVehicles_Forall. apply assemble_year. Qed.



End ParserFacts.

(** ** The shape of the records *)

Module RecordShape.
Import Js VehicleParser.

(** The code units that [cleanText] lets through: word characters, the
    hyphen and the plain space. *)
Definition isCleanChar (c : codeunit) : bool :=
  isWordChar c || (c =? 45)%N || (c =? 32)%N.

(** A record made from a line with a year: the year is a year of the data
    model, the make is a word, and [fullText] is the fields that are not
    empty, joined by single spaces. *)
Definition isParsedRecord (v : Vehicle) : Prop :=
  isModelYear (year v)
  /\ make v <> []
  /\ Forall (fun c => isSpace c = false) (make v)
  /\ fullText v
     = join (lit " ")
         (filter (fun field => 0 <? length field) [year v; make v; model v]).

(** A record made from a line without a year: only [fullText] is filled,
    with the cleaned line. *)
Definition isFallbackRecord (v : Vehicle) : Prop :=
  year v = [] /\ make v = [] /\ model v = []
  /\ fullText v <> [] /\ trim (fullText v) = fullText v.

(** A text that stands on one line of [formatVehicleList]: it is not blank
    and holds no line break. *)
Definition isLine (t : jsstring) : Prop :=
  trim t <> [] /\ Forall (fun c => isNewline c = false) t.

End RecordShape.

(** ** The query of [src/utils/ebayApiService.ts] *)

Module EbaySearch.
Import Js.

(** The query that [searchEbay] sends: the block "Build query with
    exclusions", with [searchQuery] as its result. *)
Definition searchQuery (query : jsstring) (excludeKeywords : list jsstring)
    : jsstring :=
  if 0 <? length excludeKeywords then
    let exclusions :=
      join (lit " ") (map (fun kw => lit "-" ++ kw) excludeKeywords) in
    query ++ lit " " ++ exclusions
  else query.

(** The words of a query, as a search reads them: the pieces between
    blanks. *)
Definition queryWords (q : jsstring) : list jsstring :=
  filter (fun w => 0 <? length w) (splitRuns isSpace q).

End EbaySearch.

(** ** The exclusion list of [src/components/EbayResultsModal.tsx]

    The list is a state of the component: a handler reads the list of the
    current render and hands the next list to [setExcludeList].  Each handler
    is modelled as the function from the current list to the next one. *)

Module ExcludeList.
Import Js.

(** [a === b] on strings. *)
Fixpoint strEqb (a b : jsstring) : bool :=
  match a, b with
  | [], [] => true
  | x :: a', y :: b' => (x =? y)%N && strEqb a' b'
  | _, _ => false
  end.

(** [xs.includes(x)] on an array of strings. *)
Definition arrayIncludes (xs : list jsstring) (x : jsstring) : bool :=
  existsb (fun y => strEqb y x) xs.

(** [[^\w\s]] *)
Definition isPunctuation (c : codeunit) : bool :=
  negb (isWordChar c || isSpace c).

Record TitleToken := { word : jsstring; isExcluded : bool }.

Section Modal.
(** [String.prototype.toLowerCase], outside the repository like
    [toUpperCase]. *)
Variable toLowerCase : jsstring -> jsstring.

(** [word.toLowerCase().replace(/[^\w\s]/g, '')] *)
Definition cleanWord (word : jsstring) : jsstring :=
  replaceAll (reClass isPunctuation) [] (toLowerCase word).

Definition addToExcludeList (excludeList : list jsstring) (word : jsstring)
    : list jsstring :=
  if negb (arrayIncludes excludeList word) then excludeList ++ [word]
  else excludeList.

Definition removeFromExcludeList (excludeList : list jsstring)
    (word : jsstring) : list jsstring :=
  filter (fun w => negb (strEqb w word)) excludeList.

Definition tokenizeTitle (excludeList : list jsstring) (title : jsstring)
    : list TitleToken :=
  map (fun word =>
         let cleanWord := cleanWord word in
         {| word := word; isExcluded := arrayIncludes excludeList cleanWord |})
      (splitRuns isSpace title).

Definition toggleWordExclusion (excludeList : list jsstring)
    (word : jsstring) : list jsstring :=
  let cleanWord := cleanWord word in
  if length cleanWord <=? 2 then excludeList
  else if arrayIncludes excludeList cleanWord
       then removeFromExcludeList excludeList cleanWord
       else addToExcludeList excludeList cleanWord.

End Modal.

(** Lower-casing code unit by code unit, which is [toLowerCase] on ASCII
    text. *)
Definition lowerAscii (c : codeunit) : codeunit :=
  if isUpperAZ c then (c + 32)%N else c.

(** An entry that [toggleWordExclusion] can put in the list: more than two
    code units, each a word character or a blank. *)
Definition isEntry (w : jsstring) : Prop :=
  2 < length w /\ Forall (fun c => isWordChar c || isSpace c = true) w.

End ExcludeList.

(** ** The editable list of the component [EditableVehicleList]

    The handlers hand the next array to [onVehiclesChange]; each is modelled
    as the function from the current array to the next one. *)

Module EditableList.
Import Js VehicleParser.

(** An element of the array that [handleEdit] builds.  An assignment
    beyond the end of a JavaScript array grows it: the elements in between
    are holes, and the spread of a missing record has no field, so the new
    record has a [fullText] only. *)
Inductive Slot :=
| Hole
| Whole (v : Vehicle)
| OnlyFullText (newText : jsstring).

(** [arr[index] = x] *)
Fixpoint arraySet (arr : list Slot) (index : nat) (x : Slot) : list Slot :=
  match index, arr with
  | O, [] => [x]
  | O, _ :: rest => x :: rest
  | S i, [] => Hole :: arraySet [] i x
  | S i, a :: rest => a :: arraySet rest i x
  end.

(** [{ ...arr[index], fullText: newText }] *)
Definition spreadWithFullText (element : option Slot) (newText : jsstring)
    : Slot :=
  match element with
  | Some (Whole v) =>
      Whole {| year := year v; make := make v; model := model v;
               fullText := newText |}
  | Some (OnlyFullText _) | Some Hole | None => OnlyFullText newText
  end.

Definition handleEdit (vehicles : list Vehicle) (index : nat)
    (newText : jsstring) : list Slot :=
  let updatedVehicles := map Whole vehicles in
  arraySet updatedVehicles index
    (spreadWithFullText (nth_error updatedVehicles index) newText).

(** [xs.filter((x, i) => f(x, i))], [i] counting from [from]. *)
Fixpoint filterWithIndex {A} (f : A -> nat -> bool) (from : nat)
    (xs : list A) : list A :=
  match xs with
  | [] => []
  | x :: rest =>
      if f x from then x :: filterWithIndex f (S from) rest
      else filterWithIndex f (S from) rest
  end.

Definition handleDelete (vehicles : list Vehicle) (index : nat)
    : list Vehicle :=
  filterWithIndex (fun _ i => negb (i =? index)) 0 vehicles.

(** A record with its [fullText] replaced. *)
Definition withFullText (v : Vehicle) (newText : jsstring) : Vehicle :=
  {| year := year v; make := make v; model := model v; fullText := newText |}.

End EditableList.

(** ** Further facts about the string methods *)

Module JsMore.
Import Js JsFacts.

(** What a global replacement can write: the replacement, and the code
    units at which the pattern does not match. *)
Lemma Forall_replaceFrom_unmatched (Q : codeunit -> Prop) re repl :
  (forall prev c r,
     re prev (c :: r) = None \/ re prev (c :: r) = Some 0 -> Q c) ->
  Forall Q repl ->
  forall s prev skip, Forall Q (replaceFrom re repl prev skip s).
Proof.
  intros Hre Hrepl s. induction s as [| c r IH]; intros prev skip; simpl.
  - constructor.
  - destruct skip as [| k]; [| apply IH].
    destruct (re prev (c :: r)) as [[| k] |] eqn:E.
    + constructor; [apply (Hre prev c r); right; exact E | apply IH].
    + apply Forall_app. split; [exact Hrepl | apply IH].
    + constructor; [apply (Hre prev c r); left; exact E | apply IH].
Qed.

(** Replacing a character class leaves none of its characters, when the
    replacement has none. *)
Lemma replaceAll_reClass_removes p repl s :
  Forall (fun c => p c = false) repl ->
  Forall (fun c => p c = false) (replaceAll (reClass p) repl s).
Proof.
  intro Hrepl. apply Forall_replaceFrom_unmatched; [| exact Hrepl].
  intros prev c r. unfold reClass.
  destruct (p c); [intros [H | H]; discriminate H | reflexivity].
Qed.

Lemma replaceAll_reClassPlus_removes p repl s :
  Forall (fun c => p c = false) repl ->
  Forall (fun c => p c = false) (replaceAll (reClassPlus p) repl s).
Proof.
  intro Hrepl. apply Forall_replaceFrom_unmatched; [| exact Hrepl].
  intros prev c r. unfold reClassPlus. cbn [takeWhile].
  destruct (p c); [cbn [length]; intros [H | H]; discriminate H | reflexivity].
Qed.

(** A replacement of every match by a text of the same length keeps the
    length of the string. *)
Lemma length_replaceFrom re repl :
  (forall prev s n, re prev s = Some n -> n = length repl /\ n <= length s) ->
  forall s prev skip,
    skip <= length s ->
    length (replaceFrom re repl prev skip s) = length s - skip.
Proof.
  intros Hre s. induction s as [| c r IH]; intros prev skip Hskip.
  - simpl in *. lia.
  - cbn [replaceFrom]. destruct skip as [| k].
    + destruct (re prev (c :: r)) as [[| k] |] eqn:E.
      * cbn [length]. rewrite IH; simpl; lia.
      * destruct (Hre _ _ _ E) as [Hn Hle]. cbn [length] in Hle.
        rewrite length_app, IH by lia. cbn [length]. lia.
      * cbn [length]. rewrite IH; simpl; lia.
    + cbn [length] in *. rewrite IH by lia. lia.
Qed.

Lemma startsWith_length s w : startsWith s w = true -> length w <= length s.
Proof.
  intro H. apply startsWith_firstn in H.
  rewrite <- H at 1. rewrite length_firstn. lia.
Qed.

Lemma reWholeWord_length w prev s n :
  reWholeWord w prev s = Some n -> n = length w /\ n <= length s.
Proof.
  unfold reWholeWord.
  destruct (atWordBoundary prev s); [| discriminate].
  destruct (startsWith s w) eqn:E; [| discriminate].
  destruct (atWordBoundary _ _); [| discriminate].
  intros [= <-]. split; [reflexivity | apply startsWith_length, E].
Qed.

Lemma reClass_length p prev s n :
  reClass p prev s = Some n -> n = 1 /\ n <= length s.
Proof.
  unfold reClass. destruct s as [| c r]; [discriminate |].
  destruct (p c); [| discriminate]. intros [= <-]. simpl. lia.
Qed.

(** *** [trim] *)

Lemma dropWhile_idem p s : dropWhile p (dropWhile p s) = dropWhile p s.
Proof.
  induction s as [| c r IH]; simpl; [reflexivity |].
  destruct (p c) eqn:E; [exact IH |]. simpl. rewrite E. reflexivity.
Qed.

Lemma dropWhile_head p s :
  dropWhile p s = [] \/ exists c r, dropWhile p s = c :: r /\ p c = false.
Proof.
  induction s as [| c r IH]; simpl; [left; reflexivity |].
  destruct (p c) eqn:E; [exact IH | right; eauto].
Qed.

Lemma trimEnd_idem s : trimEnd (trimEnd s) = trimEnd s.
Proof. unfold trimEnd. rewrite rev_involutive, dropWhile_idem. reflexivity. Qed.

(** A trimmed text is empty or starts with a code unit that is no blank. *)
Lemma trim_head s :
  trim s = [] \/ exists c r, trim s = c :: trimEnd r /\ isSpace c = false.
Proof.
  unfold trim, trimStart.
  destruct (dropWhile_head isSpace s) as [-> | [c [r [-> Hc]]]].
  - left. reflexivity.
  - right. rewrite (ParserFacts.trimEnd_cons _ _ Hc). eauto.
Qed.

Lemma trim_idem s : trim (trim s) = trim s.
Proof.
  destruct (trim_head s) as [-> | [c [r [-> Hc]]]]; [reflexivity |].
  rewrite (ParserFacts.trim_cons _ _ Hc), trimEnd_idem. reflexivity.
Qed.

Lemma trim_blank s : Forall (fun c => isSpace c = true) s -> trim s = [].
Proof.
  intro H. unfold trim, trimStart.
  replace (dropWhile isSpace s) with (@nil codeunit); [reflexivity |].
  induction H as [| c r Hc _ IH]; simpl; [reflexivity |]. rewrite Hc. exact IH.
Qed.

(** *** [split] and [join] *)

Lemma Forall_splitRuns_no_sep sep s :
  Forall (Forall (fun c => sep c = false)) (splitRuns sep s).
Proof.
  induction s as [| c r IH]; simpl.
  - repeat constructor.
  - destruct (sep c) eqn:E.
    + destruct r as [| c' r'].
      * repeat constructor.
      * destruct (sep c'); [exact IH | constructor; [constructor | exact IH]].
    + destruct (splitRuns sep r) as [| p ps].
      * repeat constructor. exact E.
      * inversion IH; subst. constructor; [constructor |]; assumption.
Qed.

Lemma splitRuns_nonempty sep s : splitRuns sep s <> [].
Proof.
  induction s as [| c r IH]; simpl; [discriminate |].
  destruct (sep c).
  - destruct r as [| c' r']; [discriminate |].
    destruct (sep c'); [exact IH | discriminate].
  - destruct (splitRuns sep r); discriminate.
Qed.

Lemma splitRuns_no_sep sep p :
  Forall (fun c => sep c = false) p -> splitRuns sep p = [p].
Proof.
  induction 1 as [| c r Hc _ IH]; simpl; [reflexivity |].
  rewrite Hc, IH. reflexivity.
Qed.

Lemma splitRuns_piece sep p x rest :
  Forall (fun c => sep c = false) p -> sep x = true ->
  match rest with [] => True | c :: _ => sep c = false end ->
  splitRuns sep (p ++ x :: rest) = p :: splitRuns sep rest.
Proof.
  intros Hp Hx Hrest. induction Hp as [| c r Hc _ IH].
  - cbn [app splitRuns]. rewrite Hx.
    destruct rest as [| c' r']; [reflexivity |]. rewrite Hrest. reflexivity.
  - cbn [app splitRuns]. rewrite Hc, IH. reflexivity.
Qed.

(** Splitting what [join] put together gives the pieces back, when no piece
    is empty or holds a separator. *)
Lemma splitRuns_join sep x pieces :
  sep x = true -> pieces <> [] ->
  Forall (fun p => p <> [] /\ Forall (fun c => sep c = false) p) pieces ->
  splitRuns sep (join [x] pieces) = pieces.
Proof.
  intros Hx Hne Hall. induction Hall as [| p ps [Hp Hsep] Hps IH].
  - contradiction.
  - cbn [join]. destruct ps as [| q qs].
    + apply splitRuns_no_sep, Hsep.
    + cbn [app]. rewrite splitRuns_piece; [| exact Hsep | exact Hx |].
      * rewrite IH; [reflexivity | discriminate].
      * inversion Hps as [| ? ? [Hq Hqsep] _]; subst.
        cbn [join]. destruct q as [| c q']; [contradiction |].
        inversion Hqsep; subst.
        destruct qs; cbn [app]; assumption.
Qed.

End JsMore.

(** ** Further facts about the parser *)

Module ParserMore.
Import Js VehicleParser JsFacts ParserFacts JsMore RecordShape.

(** *** Code units *)

Ltac bool_to_arith H :=
  unfold isCleanChar, isWordChar, isDigit, isUpperAZ, isLowerAZ, isSpace,
    isNewline, isSpecial, inRange in H;
  repeat rewrite ?orb_true_iff, ?andb_true_iff, ?N.leb_le, ?N.eqb_eq in H.

Lemma isCleanChar_not_newline c : isCleanChar c = true -> isNewline c = false.
Proof.
  intro H. bool_to_arith H. unfold isNewline.
  apply orb_false_iff. split; apply N.eqb_neq; lia.
Qed.

Lemma isCleanChar_space c : isCleanChar c = true -> isSpace c = true -> c = 32%N.
Proof. intros H Hs. bool_to_arith H. bool_to_arith Hs. lia. Qed.

Lemma isDigit_isCleanChar c : isDigit c = true -> isCleanChar c = true.
Proof.
  intro H. unfold isCleanChar. rewrite (isDigit_isWordChar _ H). reflexivity.
Qed.

Lemma Forall_join (P : codeunit -> Prop) sep parts :
  Forall P sep -> Forall (Forall P) parts -> Forall P (join sep parts).
Proof.
  intros Hsep Hparts. induction Hparts as [| p ps Hp Hps IH]; cbn [join].
  - constructor.
  - destruct ps as [| q qs]; [exact Hp |].
    apply Forall_app. split; [exact Hp |].
    apply Forall_app. split; [exact Hsep | exact IH].
Qed.

Lemma filter_all {A} (f : A -> bool) l :
  Forall (fun x => f x = true) l -> filter f l = l.
Proof.
  induction 1 as [| x l Hx _ IH]; simpl; [reflexivity |].
  rewrite Hx, IH. reflexivity.
Qed.

(** *** [fixOCRErrors] *)

Section Normalized.
Variable toUpperCase : jsstring -> jsstring.

(** X1: the normalized text holds no section sign and no pipe, whatever the
    input: both are written as digits and no later substitution brings them
    back. *)
Theorem fixOCRErrors_leaves_no_section_no_pipe text :
  Forall (fun c => (c =? 167)%N = false /\ (c =? 124)%N = false)
    (fixOCRErrors toUpperCase text).
Proof.
  unfold fixOCRErrors.
  set (t1 := replaceAll reJOI (lit "201") (toUpperCase text)).
  set (t2 := replaceAll reSection (lit "2") t1).
  set (t3 := replaceAll rePipe (lit "1") t2).
  assert (H2 : Forall (fun c => (c =? 167)%N = false) t2).
  { apply replaceAll_reClass_removes. repeat constructor. }
  assert (H3 : Forall (fun c => (c =? 167)%N = false) t3).
  { apply Forall_replaceAll; [repeat constructor | exact H2]. }
  assert (H3' : Forall (fun c => (c =? 124)%N = false) t3).
  { apply replaceAll_reClass_removes. repeat constructor. }
  assert (H4 : Forall (fun c => (c =? 167)%N = false)
                 (replaceAll reStandaloneO (lit "0") t3)).
  { apply Forall_replaceAll; [repeat constructor | exact H3]. }
  assert (H4' : Forall (fun c => (c =? 124)%N = false)
                  (replaceAll reStandaloneO (lit "0") t3)).
  { apply Forall_replaceAll; [repeat constructor | exact H3']. }
  rewrite Forall_forall in *. intros c Hc. split; auto.
Qed.

(** X2: the substitutions of [fixOCRErrors] keep the length of the
    upper-cased text: each one writes as many code units as it reads. *)
Theorem fixOCRErrors_keeps_length text :
  length (fixOCRErrors toUpperCase text) = length (toUpperCase text).
Proof.
  unfold fixOCRErrors, replaceAll.
  rewrite (length_replaceFrom reStandaloneO (lit "0")
             (reWholeWord_length (lit "O"))) by lia.
  rewrite (length_replaceFrom rePipe (lit "1")
             (reClass_length _)) by lia.
  rewrite (length_replaceFrom reSection (lit "2")
             (reClass_length _)) by lia.
  rewrite (length_replaceFrom reJOI (lit "201")
             (reWholeWord_length (lit "JOI"))) by lia.
  lia.
Qed.

End Normalized.

(** *** [cleanText] *)

Lemma cleanText_clean text :
  Forall (fun c => isCleanChar c = true) (cleanText text)
  /\ trim (cleanText text) = cleanText text.
Proof.
  split; [| apply trim_idem].
  unfold cleanText. apply Forall_trim.
  set (a := replaceAll reSpaces (lit " ") text).
  assert (Ha : Forall (fun c => isSpace c = true -> c = 32%N) a).
  { apply Forall_replaceFrom_unmatched.
    - intros prev c r. unfold reSpaces, reClassPlus. cbn [takeWhile].
      destruct (isSpace c); [cbn [length]; intros [H | H]; discriminate H |].
      discriminate.
    - repeat constructor. }
  assert (Hb : Forall (fun c => isSpace c = true -> c = 32%N)
                 (replaceAll reSpecial (lit " ") a)).
  { apply Forall_replaceAll; [repeat constructor | exact Ha]. }
  assert (Hc : Forall (fun c => isSpecial c = false)
                 (replaceAll reSpecial (lit " ") a)).
  { apply replaceAll_reClass_removes. repeat constructor. }
  rewrite Forall_forall in *. intros c Hin.
  specialize (Hb c Hin). specialize (Hc c Hin).
  unfold isSpecial in Hc. apply negb_false_iff in Hc.
  unfold isCleanChar.
  destruct (isWordChar c); [reflexivity |].
  destruct (c =? 45)%N; [reflexivity |].
  cbn in Hc |- *. rewrite orb_false_r in Hc. rewrite (Hb Hc). reflexivity.
Qed.

(** X3: a cleaned text is made of word characters, hyphens and plain spaces
    only, and has no blank at either end, whatever the input. *)
Theorem cleanText_alphabet text :
  Forall (fun c => isCleanChar c = true) (cleanText text)
  /\ trim (cleanText text) = cleanText text.
Proof. apply cleanText_clean. Qed.

(** *** [extractYear] *)

(** X4: the remainder that [extractYear] returns has no blank at either
    end, and the year it returns has four code units. *)
Theorem extractYear_remainder_trimmed text yearData :
  extractYear text = Some yearData ->
  trim (YearData.restOfText yearData) = YearData.restOfText yearData
  /\ length (YearData.year yearData) = 4.
Proof.
  intro H. split.
  - apply extractYear_shape in H.
    destruct H as [[i [_ [_ ->]]] | [k [c [d1 [d2 [rest [_ [_ [_ [_ ->]]]]]]]]]];
      apply trim_idem.
  - apply extractYear_year in H. destruct H as [H _]. exact H.
Qed.

Lemma extractYear_remainder_trimmed_witness :
  trim (lit "FORD  F150") = lit "FORD  F150" /\ length (lit "2004") = 4.
Proof.
  exact (extractYear_remainder_trimmed (lit " 2004   FORD  F150  ")
           {| YearData.year := lit "2004";
              YearData.restOfText := lit "FORD  F150" |} eq_refl).
Defined.

(** *** The records *)

Section Records.
Variable toUpperCase : jsstring -> jsstring.

Lemma length_processLine line :
  length (processLine toUpperCase [] line) <= 1.
Proof.
  unfold processLine, assemble.
  destruct (skipsLine (trim line)); [simpl; lia |].
  destruct (extractYear (trim line)).
  - destruct (2 <=? _); [simpl; lia |]. destruct (_ =? 1); simpl; lia.
  - destruct (0 <? _); simpl; lia.
Qed.

(** X5: the output has at most one record for each line of the normalized
    text that is not blank. *)
Theorem parseVehicles_at_most_one_record_per_line text :
  length (parseVehicles toUpperCase text)
  <= length (splitLines (fixOCRErrors toUpperCase text)).
Proof.
  rewrite parseVehicles_by_line.
  induction (splitLines (fixOCRErrors toUpperCase text)) as [| line lines IH].
  - simpl. lia.
  - cbn [flat_map length]. rewrite length_app.
    pose proof (length_processLine line). lia.
Qed.

(** The words of a cleaned text. *)
Lemma splitWords_words vehicleText :
  Forall (fun c => isCleanChar c = true) vehicleText ->
  Forall (fun w => w <> []
                   /\ Forall (fun c => isSpace c = false) w
                   /\ Forall (fun c => isCleanChar c = true) w)
    (splitWords vehicleText).
Proof.
  intro Hclean. unfold splitWords. apply Forall_forall. intros w Hin.
  apply filter_In in Hin. destruct Hin as [Hin Hlen].
  pose proof (Forall_splitRuns_no_sep isSpace vehicleText) as Hsep.
  pose proof (Forall_splitRuns _ isSpace vehicleText Hclean) as Hcl.
  rewrite Forall_forall in Hsep, Hcl.
  repeat split; [| apply Hsep, Hin | apply Hcl, Hin].
  intros ->. discriminate Hlen.
Qed.

Lemma join_words_nonempty sep (words : list jsstring) :
  words <> [] -> Forall (fun w => w <> []) words -> join sep words <> [].
Proof.
  intros Hne Hall. destruct Hall as [| w ws Hw _]; [contradiction |].
  cbn [join]. destruct ws; [exact Hw |].
  intro E. apply app_eq_nil in E. destruct E as [E _]. contradiction.
Qed.

Lemma isModelYear_head y :
  isModelYear y -> exists c r, y = c :: r /\ isDigit c = true.
Proof.
  intros [Hlen [Hdig _]]. destruct y as [| c r]; [discriminate Hlen |].
  inversion Hdig; subst. eauto.
Qed.

(** What a line with a year and a line without one give. *)
Lemma assemble_shape trimmedLine :
  Forall (fun v => (isParsedRecord v \/ isFallbackRecord v)
                   /\ Forall (fun c => isCleanChar c = true) (fullText v)
                   /\ trim (fullText v) <> [])
    (assemble toUpperCase [] trimmedLine).
Proof.
  unfold assemble.
  destruct (extractYear trimmedLine) as [yd |] eqn:E.
  - pose proof (extractYear_year _ _ E) as Hy.
    destruct (isModelYear_head _ Hy) as [c [r [Ey Hc]]].
    assert (Hyc : Forall (fun c => isCleanChar c = true) (YearData.year yd)).
    { destruct Hy as [_ [Hd _]]. rewrite Forall_forall in *.
      intros x Hx. apply isDigit_isCleanChar, Hd, Hx. }
    set (words := splitWords _).
    assert (Hwords : Forall (fun w => w <> []
                   /\ Forall (fun c => isSpace c = false) w
                   /\ Forall (fun c => isCleanChar c = true) w) words).
    { apply splitWords_words. apply cleanText_clean. }
    assert (Htrim : forall rest, trim (YearData.year yd ++ rest) <> []).
    { intro rest. rewrite Ey. cbn [app].
      rewrite (trim_cons _ _ (isDigit_not_space _ Hc)). discriminate. }
    destruct words as [| w1 [| w2 ws]]; cbn [length Nat.leb Nat.eqb hd skipn].
    + constructor.
    + inversion Hwords as [| ? ? [Hw1 [Hs1 Hc1]] _]; subst.
      apply Forall_cons; [| apply Forall_nil]. cbn [fullText year make model].
      split; [left | split].
      * unfold isParsedRecord. cbn [fullText year make model].
        split; [exact Hy | split; [exact Hw1 | split; [exact Hs1 |]]].
        rewrite Ey. destruct w1; [contradiction | reflexivity].
      * apply Forall_app. split; [exact Hyc |].
        apply Forall_app. split; [repeat constructor | exact Hc1].
      * apply Htrim.
    + inversion Hwords as [| ? ? [Hw1 [Hs1 Hc1]] Hrest]; subst.
      assert (Hm : join (lit " ") (w2 :: ws) <> []).
      { apply join_words_nonempty; [discriminate |].
        rewrite Forall_forall in *. intros w Hw. apply (Hrest w Hw). }
      assert (Hmc : Forall (fun c => isCleanChar c = true)
                      (join (lit " ") (w2 :: ws))).
      { apply Forall_join; [repeat constructor |].
        rewrite Forall_forall in *. intros w Hw. apply (Hrest w Hw). }
      apply Forall_cons; [| apply Forall_nil]. cbn [fullText year make model].
      split; [left | split].
      * unfold isParsedRecord. cbn [fullText year make model].
        split; [exact Hy | split; [exact Hw1 | split; [exact Hs1 |]]].
        rewrite Ey. destruct w1; [contradiction |].
        destruct (join (lit " ") (w2 :: ws)); [contradiction | reflexivity].
      * apply Forall_app. split; [exact Hyc |].
        apply Forall_app. split; [repeat constructor |].
        apply Forall_app. split; [exact Hc1 |].
        apply Forall_app. split; [repeat constructor | exact Hmc].
      * apply Htrim.
  - destruct (cleanText trimmedLine) as [| c r] eqn:Ec;
      cbn [length Nat.ltb Nat.leb]; [constructor |].
    apply Forall_cons; [| apply Forall_nil]. cbn [fullText year make model].
    destruct (cleanText_clean trimmedLine) as [Hal Htr]. rewrite Ec in *.
    split; [right | split].
    + unfold isFallbackRecord. cbn [fullText year make model].
      repeat split; [discriminate | exact Htr].
    + exact Hal.
    + rewrite Htr. discriminate.
Qed.

(** X6: every record of the output is of one of two kinds.  A record of a
    line with a year has a year of the data model, a make that is not empty
    and holds no blank, and as [fullText] its year, make and model, the empty
    model left out, joined by single spaces.  A record of a line without a
    year has an empty year, make and model, and a [fullText] that is not empty
    and has no blank at either end. *)
Theorem parseVehicles_record_shape text :
  Forall (fun v => isParsedRecord v \/ isFallbackRecord v)
    (parseVehicles toUpperCase text).
Proof.
  apply parseVehicles_Forall. intro t.
  pose proof (assemble_shape t) as H. rewrite Forall_forall in *.
  intros v Hv. apply (H v Hv).
Qed.

(** X7: the [fullText] of every record is made of word characters, hyphens
    and plain spaces only. *)
Theorem parseVehicles_fullText_alphabet text :
  Forall (fun v => Forall (fun c => isCleanChar c = true) (fullText v))
    (parseVehicles toUpperCase text).
Proof.
  apply parseVehicles_Forall. intro t.
  pose proof (assemble_shape t) as H. rewrite Forall_forall in *.
  intros v Hv. apply (H v Hv).
Qed.

Lemma parseVehicles_lines text :
  Forall (fun v => isLine (fullText v)) (parseVehicles toUpperCase text).
Proof.
  apply parseVehicles_Forall. intro t.
  pose proof (assemble_shape t) as H. rewrite Forall_forall in *.
  intros v Hv. destruct (H v Hv) as [_ [Hal Htr]]. split; [exact Htr |].
  rewrite Forall_forall in *. intros c Hc.
  apply isCleanChar_not_newline, Hal, Hc.
Qed.

End Records.

(** *** [formatVehicleList] *)

Lemma isLine_nonempty t : isLine t -> t <> [].
Proof. intros [H _] ->. apply H. reflexivity. Qed.

Lemma splitLines_formatVehicleList vehicles :
  Forall (fun v => isLine (fullText v)) vehicles ->
  splitLines (formatVehicleList vehicles) = map fullText vehicles.
Proof.
  intro H. unfold formatVehicleList, splitLines.
  destruct vehicles as [| v vs]; [reflexivity |].
  rewrite splitRuns_join.
  - apply filter_all. apply Forall_forall. intros t Ht.
    apply in_map_iff in Ht. destruct Ht as [x [<- Hx]].
    rewrite Forall_forall in H. destruct (H x Hx) as [Htrim _].
    destruct (trim (fullText x)); [contradiction | reflexivity].
  - reflexivity.
  - discriminate.
  - apply Forall_forall. intros t Ht.
    apply in_map_iff in Ht. destruct Ht as [x [<- Hx]].
    rewrite Forall_forall in H. specialize (H x Hx).
    split; [apply isLine_nonempty, H | apply H].
Qed.



(** X9: the formatted output of the parser has one line for each record:
    its lines are the [fullText]s of the records, in order. *)
Theorem formatVehicleList_parseVehicles
    (toUpperCase : jsstring -> jsstring) text :
  splitLines (formatVehicleList (parseVehicles toUpperCase text))
  = map fullText (parseVehicles toUpperCase text).
Proof. apply splitLines_formatVehicleList, parseVehicles_lines. Qed.

(** *** [splitMakeModel] *)

Lemma startsWith_refl s : startsWith s s = true.
Proof. apply startsWith_firstn, firstn_all. Qed.

Lemma startsWith_app s rest : startsWith (s ++ rest) s = true.
Proof.
  apply startsWith_firstn. rewrite firstn_app, Nat.sub_diag, firstn_all.
  cbn [firstn]. apply app_nil_r.
Qed.

(** A prefix of [m ++ rest] is a prefix of [m] or has [m] as a prefix. *)
Lemma startsWith_app_cases e : forall m rest,
  startsWith (m ++ rest) e = true ->
  startsWith m e = true \/ startsWith e m = true.
Proof.
  induction e as [| x e IH]; intros m rest H; [left; reflexivity |].
  destruct m as [| y m]; [right; reflexivity |].
  cbn [app startsWith] in H |- *.
  apply andb_true_iff in H. destruct H as [Hxy H].
  apply N.eqb_eq in Hxy. subst y. rewrite N.eqb_refl. cbn [andb].
  apply (IH m rest H).
Qed.

(** No listed make is a prefix of another listed make. *)
Definition prefixFree (makes : list jsstring) : bool :=
  forallb (fun m =>
    forallb (fun e =>
      (startsWith m e && startsWith e m)
      || negb (startsWith m e || startsWith e m)) makes) makes.

Lemma startsWith_both_eq a : forall b,
  startsWith a b = true -> startsWith b a = true -> a = b.
Proof.
  induction a as [| x a IH]; intros [| y b] Hab Hba; try reflexivity;
    try discriminate.
  cbn [startsWith] in Hab, Hba.
  apply andb_true_iff in Hab. destruct Hab as [Hxy Hab].
  apply andb_true_iff in Hba. destruct Hba as [_ Hba].
  apply N.eqb_eq in Hxy. subst. f_equal. apply IH; assumption.
Qed.

Lemma splitMakeModelFrom_listed m rest text : forall makes,
  (forall e, In e makes ->
     startsWith m e = true \/ startsWith e m = true -> e = m) ->
  In m makes -> rest <> [] ->
  splitMakeModelFrom makes text (m ++ rest)
  = m ++ lit " " ++ substring text (length m).
Proof.
  intros makes Hfree Hin Hrest.
  assert (Hm : startsWith (m ++ rest) m && (length m <? length (m ++ rest))
               = true).
  { rewrite startsWith_app. cbn [andb]. apply Nat.ltb_lt.
    rewrite length_app. destruct rest; [contradiction | simpl; lia]. }
  induction makes as [| e makes IH]; [destruct Hin |].
  cbn [splitMakeModelFrom].
  destruct (startsWith (m ++ rest) e && (length e <? length (m ++ rest)))
    eqn:He.
  - apply andb_true_iff in He. destruct He as [He _].
    rewrite (Hfree e (or_introl eq_refl) (startsWith_app_cases _ _ _ He)).
    reflexivity.
  - destruct Hin as [-> | Hin]; [rewrite Hm in He; discriminate He |].
    apply IH; [| exact Hin]. intros e' He'. apply Hfree. right. exact He'.
Qed.

Lemma COMMON_MAKES_prefix_free e m :
  In e COMMON_MAKES -> In m COMMON_MAKES ->
  startsWith m e = true \/ startsWith e m = true -> e = m.
Proof.
  intros He Hm Hcmp.
  assert (Hall : prefixFree COMMON_MAKES = true) by (vm_compute; reflexivity).
  unfold prefixFree in Hall.
  pose proof (proj1 (forallb_forall _ _) Hall m Hm) as H1. cbv beta in H1.
  pose proof (proj1 (forallb_forall _ _) H1 e He) as H2. cbv beta in H2.
  apply orb_true_iff in H2. destruct H2 as [H2 | H2].
  - apply andb_true_iff in H2. destruct H2 as [Ha Hb].
    apply startsWith_both_eq; assumption.
  - apply negb_true_iff, orb_false_iff in H2. destruct H2 as [Ha Hb].
    destruct Hcmp as [H | H]; [rewrite H in Ha | rewrite H in Hb];
      discriminate.
Qed.

(** X10: every listed make is split off, whatever its place in the list:
    when the upper-cased text is a listed make followed by at least one more
    code unit, [splitMakeModel] returns that make, a space and the text from
    the length of the make on.  No listed make is a prefix of another, so the
    order of the list decides nothing. *)
Theorem splitMakeModel_any_listed_make
    (toUpperCase : jsstring -> jsstring) text m rest :
  In m COMMON_MAKES -> rest <> [] ->
  toUpperCase text = m ++ rest ->
  splitMakeModel toUpperCase text
  = m ++ lit " " ++ substring text (length m).
Proof.
  intros Hin Hrest Hup. unfold splitMakeModel. rewrite Hup.
  apply splitMakeModelFrom_listed; [| exact Hin | exact Hrest].
  intros e He. apply COMMON_MAKES_prefix_free; assumption.
Qed.

Lemma splitMakeModel_any_listed_make_witness :
  splitMakeModel (map upperAscii) (lit "VWGOLF") = lit "VW GOLF".
Proof.
  refine (splitMakeModel_any_listed_make (map upperAscii) (lit "VWGOLF")
            (lit "VW") (lit "GOLF") _ _ eq_refl).
  - vm_compute. tauto.
  - discriminate.
Defined.

(** *** Blank text *)

Lemma replaceFrom_unmatched re repl : forall s prev,
  (forall prev' k, k < length s ->
     re prev' (skipn k s) = None) ->
  replaceFrom re repl prev 0 s = s.
Proof.
  induction s as [| c r IH]; intros prev H; [reflexivity |].
  cbn [replaceFrom].
  pose proof (H prev 0 ltac:(simpl; lia)) as H0. cbn [skipn] in H0.
  rewrite H0. f_equal.
  apply IH. intros prev' k Hk. apply (H prev' (S k)). simpl. lia.
Qed.

Lemma skipn_blank (s : jsstring) k :
  Forall (fun c => isSpace c = true) s -> k < length s ->
  exists c r, skipn k s = c :: r /\ isSpace c = true.
Proof.
  intros H Hk.
  pose proof (Forall_skipn' _ k s H) as Hs.
  destruct (skipn k s) as [| c r] eqn:E.
  - apply (f_equal (@length codeunit)) in E. rewrite length_skipn in E.
    simpl in E. lia.
  - inversion Hs; subst. eauto.
Qed.

Lemma reWholeWord_blank w prev c r :
  w <> [] -> Forall (fun x => isSpace x = false) w -> isSpace c = true ->
  reWholeWord w prev (c :: r) = None.
Proof.
  intros Hw Hall Hc. unfold reWholeWord.
  destruct w as [| x w]; [contradiction |].
  cbn [startsWith]. inversion Hall; subst.
  destruct (N.eqb_spec c x) as [-> | _]; [congruence |].
  rewrite andb_false_r. reflexivity.
Qed.

Lemma reClass_blank p prev c r :
  (forall x, isSpace x = true -> p x = false) -> isSpace c = true ->
  reClass p prev (c :: r) = None.
Proof. intros Hp Hc. unfold reClass. rewrite (Hp c Hc). reflexivity. Qed.

Section Blank.
Variable toUpperCase : jsstring -> jsstring.

Lemma fixOCRErrors_blank text :
  Forall (fun c => isSpace c = true) (toUpperCase text) ->
  fixOCRErrors toUpperCase text = toUpperCase text.
Proof.
  intro H. unfold fixOCRErrors, replaceAll.
  rewrite (replaceFrom_unmatched reJOI).
  2:{ intros prev k Hk. destruct (skipn_blank _ k H Hk) as [c [r [-> Hc]]].
      apply reWholeWord_blank; [discriminate | repeat constructor | exact Hc]. }
  rewrite (replaceFrom_unmatched reSection).
  2:{ intros prev k Hk. destruct (skipn_blank _ k H Hk) as [c [r [-> Hc]]].
      apply reClass_blank; [| exact Hc].
      intros x Hx. apply N.eqb_neq. bool_to_arith Hx. lia. }
  rewrite (replaceFrom_unmatched rePipe).
  2:{ intros prev k Hk. destruct (skipn_blank _ k H Hk) as [c [r [-> Hc]]].
      apply reClass_blank; [| exact Hc].
      intros x Hx. apply N.eqb_neq. bool_to_arith Hx. lia. }
  rewrite (replaceFrom_unmatched reStandaloneO).
  2:{ intros prev k Hk. destruct (skipn_blank _ k H Hk) as [c [r [-> Hc]]].
      apply reWholeWord_blank; [discriminate | repeat constructor | exact Hc]. }
  reflexivity.
Qed.

(** X11: a text that is blank after upper-casing (empty, or blanks and line
    breaks only) gives no record. *)
Theorem parseVehicles_blank text :
  Forall (fun c => isSpace c = true) (toUpperCase text) ->
  parseVehicles toUpperCase text = [].
Proof.
  intro H. unfold parseVehicles. rewrite (fixOCRErrors_blank _ H).
  replace (splitLines (toUpperCase text)) with (@nil jsstring); [reflexivity |].
  symmetry. unfold splitLines.
  pose proof (Forall_splitRuns _ isNewline _ H) as Hall.
  induction Hall as [| p ps Hp _ IH]; [reflexivity |].
  cbn [filter]. rewrite (trim_blank _ Hp). exact IH.
Qed.

End Blank.

Lemma parseVehicles_blank_witness :
  parseVehicles (map upperAscii) [] = []
  /\ parseVehicles (map upperAscii) (lit "  " ++ [LF; 13%N; 9%N] ++ lit " ") = [].
Proof.
  split.
  - exact (parseVehicles_blank (map upperAscii) [] (Forall_nil _)).
  - refine (parseVehicles_blank (map upperAscii) _ _).
    repeat constructor.
Defined.

End ParserMore.

(** ** Facts about the query *)

Module EbaySearchFacts.
Import Js JsFacts JsMore EbaySearch.

Section Words.
Variable sep : codeunit -> bool.

Let words (s : jsstring) : list jsstring :=
  filter (fun w => 0 <? length w) (splitRuns sep s).

Lemma splitRuns_cons c r :
  splitRuns sep (c :: r)
  = if sep c then
      match r with
      | c' :: _ => if sep c' then splitRuns sep r else [] :: splitRuns sep r
      | [] => [] :: splitRuns sep r
      end
    else
      match splitRuns sep r with
      | p :: ps => (c :: p) :: ps
      | [] => [[c]]
      end.
Proof. reflexivity. Qed.

Lemma splitRuns_sep_head c s :
  sep c = true -> exists ps, splitRuns sep (c :: s) = [] :: ps.
Proof.
  revert c. induction s as [| c' s IH]; intros c Hc; rewrite splitRuns_cons, Hc.
  - eauto.
  - destruct (sep c') eqn:E; [| eauto]. apply (IH c' E).
Qed.

Lemma splitRuns_nonsep_cons c s :
  sep c = false ->
  splitRuns sep (c :: s)
  = (c :: hd [] (splitRuns sep s)) :: tl (splitRuns sep s).
Proof.
  intro Hc. rewrite splitRuns_cons, Hc.
  destruct (splitRuns sep s) eqn:E; [| reflexivity].
  exfalso. exact (splitRuns_nonempty sep s E).
Qed.

Lemma words_sep_cons c s : sep c = true -> words (c :: s) = words s.
Proof.
  intro Hc. unfold words. rewrite splitRuns_cons, Hc.
  destruct s as [| c' s']; [reflexivity |].
  destruct (sep c'); reflexivity.
Qed.

Lemma words_hd_tl s :
  words s
  = filter (fun w => 0 <? length w) [hd [] (splitRuns sep s)]
    ++ filter (fun w => 0 <? length w) (tl (splitRuns sep s)).
Proof.
  unfold words. destruct (splitRuns sep s) as [| p ps] eqn:E.
  - exfalso. exact (splitRuns_nonempty sep s E).
  - cbn [hd tl filter]. destruct (0 <? length p); reflexivity.
Qed.

Lemma splitRuns_app_sep x b : sep x = true -> forall a,
  hd [] (splitRuns sep (a ++ x :: b)) = hd [] (splitRuns sep a)
  /\ filter (fun w => 0 <? length w) (tl (splitRuns sep (a ++ x :: b)))
     = filter (fun w => 0 <? length w) (tl (splitRuns sep a)) ++ words b.
Proof.
  intros Hx a. induction a as [| c a IH].
  - cbn [app]. destruct (splitRuns_sep_head x b Hx) as [ps E].
    pose proof (words_sep_cons x b Hx) as W. unfold words in W.
    rewrite E in *. cbn [hd tl filter length Nat.ltb Nat.leb] in *.
    split; [reflexivity | exact W].
  - cbn [app]. destruct IH as [IH1 IH2]. destruct (sep c) eqn:Hc.
    + destruct (splitRuns_sep_head c (a ++ x :: b) Hc) as [ps1 E1].
      destruct (splitRuns_sep_head c a Hc) as [ps2 E2].
      pose proof (words_sep_cons c (a ++ x :: b) Hc) as W1.
      pose proof (words_sep_cons c a Hc) as W2.
      rewrite (words_hd_tl (a ++ x :: b)), IH1, IH2, app_assoc,
        <- words_hd_tl in W1.
      unfold words in W1 at 1. unfold words in W2 at 1.
      rewrite E1 in *. rewrite E2 in *.
      cbn [hd tl filter length Nat.ltb Nat.leb] in *.
      split; [reflexivity |]. rewrite W1, W2. reflexivity.
    + rewrite !(splitRuns_nonsep_cons _ _ Hc). cbn [hd tl].
      rewrite IH1. split; [reflexivity | exact IH2].
Qed.

(** The words of two texts with a separator between them. *)
Lemma words_app_sep a x b :
  sep x = true -> words (a ++ x :: b) = words a ++ words b.
Proof.
  intro Hx. destruct (splitRuns_app_sep x b Hx a) as [H1 H2].
  rewrite (words_hd_tl (a ++ x :: b)), H1, H2, app_assoc, <- words_hd_tl.
  reflexivity.
Qed.

Lemma words_word w :
  w <> [] -> Forall (fun c => sep c = false) w -> words w = [w].
Proof.
  intros Hne Hw. unfold words. rewrite (splitRuns_no_sep _ _ Hw).
  destruct w; [contradiction | reflexivity].
Qed.

End Words.

Lemma exclusions_concat k ks :
  lit " " ++ join (lit " ") (map (fun kw => lit "-" ++ kw) (k :: ks))
  = concat (map (fun kw => lit " -" ++ kw) (k :: ks)).
Proof.
  revert k. induction ks as [| k' ks IH]; intro k.
  - cbn [map join concat]. rewrite app_nil_r. reflexivity.
  - cbn [map join concat] in *. rewrite <- IH. reflexivity.
Qed.

Lemma searchQuery_concat query excludeKeywords :
  searchQuery query excludeKeywords
  = query ++ concat (map (fun kw => lit " -" ++ kw) excludeKeywords).
Proof.
  unfold searchQuery. destruct excludeKeywords as [| k ks].
  - cbn. symmetry. apply app_nil_r.
  - cbn [length Nat.ltb Nat.leb]. rewrite exclusions_concat. reflexivity.
Qed.

(** X12: the query sent to the search is the query followed, for each
    excluded keyword in order, by a space, a minus sign and the keyword;
    with no keyword it is the query itself. *)
Theorem searchQuery_appends_exclusions query excludeKeywords :
  searchQuery query excludeKeywords
  = query ++ concat (map (fun kw => lit " -" ++ kw) excludeKeywords).
Proof. apply searchQuery_concat. Qed.

(** X13: when no excluded keyword is empty or holds a blank, the words of
    the query sent are the words of the query followed by the keywords, each
    with a minus sign before it, one word for each keyword. *)
Theorem searchQuery_words query excludeKeywords :
  Forall (fun kw => kw <> [] /\ Forall (fun c => isSpace c = false) kw)
    excludeKeywords ->
  queryWords (searchQuery query excludeKeywords)
  = queryWords query ++ map (fun kw => lit "-" ++ kw) excludeKeywords.
Proof.
  intro H. rewrite searchQuery_concat. revert query.
  induction H as [| k ks [Hk Hsp] _ IH]; intro query.
  - cbn [map concat]. rewrite !app_nil_r. reflexivity.
  - cbn [map concat]. rewrite app_assoc, IH.
    assert (E : queryWords (query ++ lit " -" ++ k)
                = queryWords query ++ [lit "-" ++ k]).
    { pose proof (words_app_sep isSpace query 32%N (lit "-" ++ k) eq_refl)
        as E1.
      assert (E2 : filter (fun w => 0 <? length w)
                     (splitRuns isSpace (lit "-" ++ k)) = [lit "-" ++ k]).
      { apply words_word; [discriminate |].
        constructor; [reflexivity | exact Hsp]. }
      exact (eq_trans E1 (f_equal (app _) E2)). }
    rewrite E, <- app_assoc. reflexivity.
Qed.

Lemma searchQuery_words_witness :
  queryWords (searchQuery (lit "2015 FORD  F150") [lit "parts"; lit "manual"])
  = [lit "2015"; lit "FORD"; lit "F150"; lit "-parts"; lit "-manual"].
Proof.
  refine (searchQuery_words (lit "2015 FORD  F150")
            [lit "parts"; lit "manual"] _).
  repeat constructor; discriminate.
Defined.

End EbaySearchFacts.

(** ** Facts about the exclusion list *)

Module ExcludeListFacts.
Import Js JsFacts JsMore ExcludeList.

Lemma strEqb_eq a : forall b, strEqb a b = true <-> a = b.
Proof.
  induction a as [| x a IH]; intros [| y b]; cbn [strEqb];
    try (split; [discriminate | discriminate]); [split; reflexivity |].
  rewrite andb_true_iff, N.eqb_eq, IH. split.
  - intros [-> ->]. reflexivity.
  - intros [= -> ->]. split; reflexivity.
Qed.

Lemma strEqb_neq a b : strEqb a b = false <-> a <> b.
Proof.
  rewrite <- strEqb_eq. destruct (strEqb a b); split; congruence.
Qed.

Lemma arrayIncludes_In xs x : arrayIncludes xs x = true <-> In x xs.
Proof.
  unfold arrayIncludes. rewrite existsb_exists. split.
  - intros [y [Hy E]]. apply strEqb_eq in E. subst. exact Hy.
  - intro H. exists x. split; [exact H | apply strEqb_eq; reflexivity].
Qed.

Lemma arrayIncludes_not_In xs x : arrayIncludes xs x = false <-> ~ In x xs.
Proof.
  rewrite <- arrayIncludes_In. destruct (arrayIncludes xs x); split; congruence.
Qed.

Section Modal.
Variable toLowerCase : jsstring -> jsstring.

Lemma In_addToExcludeList l w x :
  In x (addToExcludeList l w) <-> In x l \/ x = w.
Proof.
  unfold addToExcludeList. destruct (arrayIncludes l w) eqn:E; cbn [negb].
  - apply arrayIncludes_In in E. split; [auto |].
    intros [H | ->]; assumption.
  - rewrite in_app_iff. cbn [In]. split.
    + intros [H | [H | []]]; auto.
    + intros [H | H]; auto.
Qed.

Lemma In_removeFromExcludeList l w x :
  In x (removeFromExcludeList l w) <-> In x l /\ x <> w.
Proof.
  unfold removeFromExcludeList. rewrite filter_In, negb_true_iff, strEqb_neq.
  reflexivity.
Qed.

(** Membership after a tap on [word]. *)
Lemma arrayIncludes_toggle l word x :
  arrayIncludes (toggleWordExclusion toLowerCase l word) x
  = if (2 <? length (cleanWord toLowerCase word))
       && strEqb x (cleanWord toLowerCase word)
    then negb (arrayIncludes l x)
    else arrayIncludes l x.
Proof.
  unfold toggleWordExclusion.
  set (cw := cleanWord toLowerCase word).
  destruct (length cw <=? 2) eqn:Hlen.
  - apply Nat.leb_le in Hlen.
    rewrite (proj2 (Nat.ltb_ge 2 (length cw)) Hlen). reflexivity.
  - apply Nat.leb_gt in Hlen. rewrite (proj2 (Nat.ltb_lt 2 (length cw)) Hlen).
    cbn [andb]. apply eq_iff_eq_true.
    destruct (arrayIncludes l cw) eqn:Hin.
    + rewrite arrayIncludes_In, In_removeFromExcludeList.
      destruct (strEqb x cw) eqn:E.
      * apply strEqb_eq in E. subst x. rewrite Hin. cbn [negb].
        split; [intros [_ H]; contradiction | discriminate].
      * apply strEqb_neq in E. rewrite arrayIncludes_In. tauto.
    + rewrite arrayIncludes_In, In_addToExcludeList.
      destruct (strEqb x cw) eqn:E.
      * apply strEqb_eq in E. subst x. rewrite Hin. cbn [negb]. tauto.
      * apply strEqb_neq in E. rewrite arrayIncludes_In. tauto.
Qed.

(** X14: a tap on a word whose cleaned form has more than two code units
    flips the membership of that cleaned form in the exclusion list and of
    nothing else; a tap on a word whose cleaned form has at most two code
    units changes nothing: the list is the list before the tap. *)
Theorem toggleWordExclusion_flips_membership l word :
  (forall x,
     arrayIncludes (toggleWordExclusion toLowerCase l word) x
     = if (2 <? length (cleanWord toLowerCase word))
          && strEqb x (cleanWord toLowerCase word)
       then negb (arrayIncludes l x)
       else arrayIncludes l x)
  /\ (length (cleanWord toLowerCase word) <= 2 ->
      toggleWordExclusion toLowerCase l word = l).
Proof.
  split.
  - intro x. apply arrayIncludes_toggle.
  - intro H. unfold toggleWordExclusion.
    rewrite (proj2 (Nat.leb_le _ 2) H). reflexivity.
Qed.

(** X15: after a tap on a word, the tokens of a title are marked as before,
    except the tokens with the same cleaned form as the tapped word, whose
    marks are flipped when that form has more than two code units. *)
Theorem tokenizeTitle_after_toggle l word title :
  tokenizeTitle toLowerCase (toggleWordExclusion toLowerCase l word) title
  = map (fun t =>
           if (2 <? length (cleanWord toLowerCase word))
              && strEqb (cleanWord toLowerCase (ExcludeList.word t))
                   (cleanWord toLowerCase word)
           then {| ExcludeList.word := ExcludeList.word t;
                   isExcluded := negb (isExcluded t) |}
           else t)
        (tokenizeTitle toLowerCase l title).
Proof.
  unfold tokenizeTitle. rewrite map_map. apply map_ext. intro w.
  cbn [ExcludeList.word isExcluded]. rewrite arrayIncludes_toggle.
  destruct (_ && _); reflexivity.
Qed.

Lemma NoDup_snoc (l : list jsstring) w : NoDup l -> ~ In w l -> NoDup (l ++ [w]).
Proof.
  intros Hl Hw. induction Hl as [| x l Hx Hl IH]; cbn [app].
  - constructor; [intros [] | constructor].
  - constructor.
    + rewrite in_app_iff. cbn [In]. intros [H | [H | []]]; [contradiction |].
      subst. apply Hw. left. reflexivity.
    + apply IH. intro H. apply Hw. right. exact H.
Qed.

(** X16: the exclusion list never holds a word twice: a tap keeps a list
    without repetitions free of repetitions. *)
Theorem toggleWordExclusion_NoDup l word :
  NoDup l -> NoDup (toggleWordExclusion toLowerCase l word).
Proof.
  intro H. unfold toggleWordExclusion.
  destruct (_ <=? 2); [exact H |].
  destruct (arrayIncludes l _) eqn:E.
  - unfold removeFromExcludeList. apply NoDup_filter, H.
  - unfold addToExcludeList. rewrite E. cbn [negb].
    apply NoDup_snoc; [exact H | apply arrayIncludes_not_In, E].
Qed.

Lemma filter_not_In (l : list jsstring) w :
  ~ In w l -> filter (fun x => negb (strEqb x w)) l = l.
Proof.
  induction l as [| x l IH]; intro H; [reflexivity |]. cbn [filter].
  assert (Hx : strEqb x w = false).
  { apply strEqb_neq. intros ->. apply H. left. reflexivity. }
  rewrite Hx. cbn [negb]. f_equal. apply IH. intro Hin. apply H. right. exact Hin.
Qed.

(** X17: two taps on the same word undo each other.  The memberships are
    those before the taps, and when the cleaned word was not in the list the
    list itself is the one before the taps. *)
Theorem toggleWordExclusion_twice l word :
  (forall x,
     arrayIncludes (toggleWordExclusion toLowerCase
                      (toggleWordExclusion toLowerCase l word) word) x
     = arrayIncludes l x)
  /\ (arrayIncludes l (cleanWord toLowerCase word) = false ->
      toggleWordExclusion toLowerCase
        (toggleWordExclusion toLowerCase l word) word = l).
Proof.
  split.
  - intro x. rewrite !arrayIncludes_toggle.
    destruct (_ && _); [apply negb_involutive | reflexivity].
  - intro Hout. unfold toggleWordExclusion.
    set (cw := cleanWord toLowerCase word) in *.
    destruct (length cw <=? 2) eqn:Hlen; [reflexivity |].
    assert (Hin : arrayIncludes (l ++ [cw]) cw = true).
    { apply arrayIncludes_In, in_app_iff. right. left. reflexivity. }
    rewrite Hout. unfold addToExcludeList. rewrite Hout. cbn [negb].
    rewrite Hin.
    unfold removeFromExcludeList. rewrite filter_app.
    rewrite (filter_not_In l cw (proj1 (arrayIncludes_not_In l cw) Hout)).
    cbn [filter]. rewrite (proj2 (strEqb_eq cw cw) eq_refl). cbn [negb].
    apply app_nil_r.
Qed.

Lemma cleanWord_chars word :
  Forall (fun c => isWordChar c || isSpace c = true)
    (cleanWord toLowerCase word).
Proof.
  unfold cleanWord.
  pose proof (replaceAll_reClass_removes isPunctuation [] (toLowerCase word)
                (Forall_nil _)) as H.
  rewrite Forall_forall in *. intros c Hc. specialize (H c Hc).
  unfold isPunctuation in H. apply negb_false_iff in H. exact H.
Qed.

(** X18: every word that taps put in the exclusion list has more than two
    code units, each a word character or a blank: a tap keeps a list of
    such entries a list of such entries. *)
Theorem toggleWordExclusion_entries l word :
  Forall isEntry l -> Forall isEntry (toggleWordExclusion toLowerCase l word).
Proof.
  intro H. unfold toggleWordExclusion.
  destruct (_ <=? 2) eqn:Hlen; [exact H |].
  apply Nat.leb_gt in Hlen.
  destruct (arrayIncludes l _).
  - unfold removeFromExcludeList. apply Forall_forall. intros x Hx.
    apply filter_In in Hx. rewrite Forall_forall in H. apply H, Hx.
  - unfold addToExcludeList. destruct (negb _); [| exact H].
    apply Forall_app. split; [exact H |].
    constructor; [| constructor]. split; [exact Hlen | apply cleanWord_chars].
Qed.

End Modal.

Lemma toggleWordExclusion_NoDup_witness :
  NoDup (toggleWordExclusion (map lowerAscii) [lit "parts"] (lit "Manual,"))
  /\ toggleWordExclusion (map lowerAscii) [lit "parts"] (lit "Manual,")
     = [lit "parts"; lit "manual"].
Proof.
  split; [| reflexivity].
  refine (toggleWordExclusion_NoDup (map lowerAscii) [lit "parts"]
            (lit "Manual,") _).
  constructor; [intros [] | constructor].
Defined.

Lemma toggleWordExclusion_flips_membership_witness :
  toggleWordExclusion (map lowerAscii) [lit "parts"] (lit "V6!")
  = [lit "parts"]
  /\ arrayIncludes
       (toggleWordExclusion (map lowerAscii) [lit "parts"] (lit "Manual,"))
       (lit "manual") = true.
Proof.
  split.
  - refine (proj2 (toggleWordExclusion_flips_membership (map lowerAscii)
                     [lit "parts"] (lit "V6!")) _).
    vm_compute. lia.
  - exact (proj1 (toggleWordExclusion_flips_membership (map lowerAscii)
                    [lit "parts"] (lit "Manual,")) (lit "manual")).
Defined.

Lemma toggleWordExclusion_entries_witness :
  Forall isEntry
    (toggleWordExclusion (map lowerAscii) [lit "parts"] (lit "Manual,")).
Proof.
  refine (toggleWordExclusion_entries (map lowerAscii) [lit "parts"]
            (lit "Manual,") _).
  constructor; [| constructor].
  split; [simpl; lia | repeat constructor].
Defined.

End ExcludeListFacts.

(** ** Facts about the editable list *)

Module EditableListFacts.
Import Js VehicleParser EditableList.

Lemma arraySet_inside x : forall arr index,
  index < length arr ->
  arraySet arr index x = firstn index arr ++ x :: skipn (S index) arr.
Proof.
  induction arr as [| a arr IH]; intros index H; [simpl in H; lia |].
  destruct index as [| i]; [reflexivity |].
  cbn [arraySet firstn skipn app]. f_equal. apply IH. simpl in H. lia.
Qed.

Lemma arraySet_empty x : forall index,
  arraySet [] index x = repeat Hole index ++ [x].
Proof.
  intro index. induction index as [| i IH]; [reflexivity |].
  cbn [arraySet repeat app]. f_equal. exact IH.
Qed.

Lemma arraySet_beyond x : forall arr index,
  length arr <= index ->
  arraySet arr index x = arr ++ repeat Hole (index - length arr) ++ [x].
Proof.
  induction arr as [| a arr IH]; intros index H.
  - rewrite arraySet_empty, Nat.sub_0_r. reflexivity.
  - destruct index as [| i]; [simpl in H; lia |].
    cbn [arraySet length Nat.sub app]. f_equal. apply IH. simpl in H. lia.
Qed.

Lemma handleEdit_inside vehicles index newText v :
  nth_error vehicles index = Some v ->
  handleEdit vehicles index newText
  = map Whole (firstn index vehicles ++ withFullText v newText
               :: skipn (S index) vehicles).
Proof.
  intro Hv. unfold handleEdit.
  assert (Hlt : index < length vehicles)
    by (apply nth_error_Some; rewrite Hv; discriminate).
  rewrite arraySet_inside by (rewrite length_map; exact Hlt).
  rewrite nth_error_map, Hv. cbn [option_map spreadWithFullText].
  rewrite map_app, firstn_map. cbn [map]. rewrite skipn_map. reflexivity.
Qed.

(** X19: an edit at an index of the array changes the [fullText] at that
    index and nothing else: the array keeps its length, every record keeps
    its year, make and model, and every other record keeps its [fullText]. *)
Theorem handleEdit_changes_fullText_only vehicles index newText :
  index < length vehicles ->
  exists edited,
    handleEdit vehicles index newText = map Whole edited
    /\ length edited = length vehicles
    /\ map year edited = map year vehicles
    /\ map make edited = map make vehicles
    /\ map model edited = map model vehicles
    /\ nth_error (map fullText edited) index = Some newText
    /\ forall j, j <> index ->
         nth_error edited j = nth_error vehicles j.
Proof.
  intro Hlt.
  destruct (nth_error vehicles index) as [v |] eqn:Hv;
    [| apply nth_error_None in Hv; lia].
  pose proof (handleEdit_inside vehicles index newText v Hv) as Hedit.
  pose proof (firstn_skipn index vehicles) as Hsplit.
  assert (Hskip : skipn index vehicles = v :: skipn (S index) vehicles).
  { clear Hsplit Hedit. revert index Hlt Hv.
    induction vehicles as [| a vs IH]; intros [| i] Hlt Hv;
      try (simpl in Hlt; lia).
    - injection Hv as ->. reflexivity.
    - cbn [skipn]. apply IH; [simpl in Hlt; lia | exact Hv]. }
  rewrite Hskip in Hsplit.
  assert (Hlen : length (firstn index vehicles) = index)
    by (rewrite length_firstn; lia).
  remember (firstn index vehicles) as pre eqn:Epre.
  remember (skipn (S index) vehicles) as post eqn:Epost.
  clear Epre Epost Hskip Hv Hlt. subst vehicles index.
  exists (pre ++ withFullText v newText :: post).
  split; [exact Hedit |].
  split; [rewrite !length_app; reflexivity |].
  split; [rewrite !map_app; reflexivity |].
  split; [rewrite !map_app; reflexivity |].
  split; [rewrite !map_app; reflexivity |].
  split.
  - rewrite map_app, nth_error_app2 by (rewrite length_map; lia).
    rewrite length_map, Nat.sub_diag. reflexivity.
  - intros j Hj.
    destruct (Nat.lt_ge_cases j (length pre)) as [Hlt' | Hge].
    + rewrite !nth_error_app1 by lia. reflexivity.
    + rewrite !nth_error_app2 by lia.
      destruct (j - length pre) as [| d] eqn:E; [lia | reflexivity].
Qed.

Lemma handleEdit_changes_fullText_only_witness :
  exists edited,
    handleEdit [ mkVehicle "2015" "FORD" "F150" "2015 FORD F150";
                 mkVehicle "" "" "" "99 FORD F150" ] 1 (lit "1999 FORD F150")
    = map Whole edited
    /\ length edited = 2
    /\ map year edited = [lit "2015"; []]
    /\ map make edited = [lit "FORD"; []]
    /\ map model edited = [lit "F150"; []]
    /\ nth_error (map fullText edited) 1 = Some (lit "1999 FORD F150")
    /\ forall j, j <> 1 ->
         nth_error edited j
         = nth_error [ mkVehicle "2015" "FORD" "F150" "2015 FORD F150";
                       mkVehicle "" "" "" "99 FORD F150" ] j.
Proof.
  refine (handleEdit_changes_fullText_only
            [ mkVehicle "2015" "FORD" "F150" "2015 FORD F150";
              mkVehicle "" "" "" "99 FORD F150" ] 1 (lit "1999 FORD F150") _).
  simpl. lia.
Defined.

(** X20: an edit at an index beyond the array grows the array up to that
    index: the records stay, holes fill the gap, and the last element is a
    record with a [fullText] only, without year, make and model. *)
Theorem handleEdit_beyond_the_end vehicles index newText :
  length vehicles <= index ->
  handleEdit vehicles index newText
  = map Whole vehicles ++ repeat Hole (index - length vehicles)
    ++ [OnlyFullText newText].
Proof.
  intro H. unfold handleEdit.
  rewrite arraySet_beyond by (rewrite length_map; exact H).
  rewrite length_map.
  replace (nth_error (map Whole vehicles) index) with (@None Slot);
    [reflexivity |].
  symmetry. apply nth_error_None. rewrite length_map. exact H.
Qed.

Lemma handleEdit_beyond_the_end_witness :
  handleEdit [ mkVehicle "2015" "FORD" "F150" "2015 FORD F150" ] 3 (lit "X")
  = [ Whole (mkVehicle "2015" "FORD" "F150" "2015 FORD F150"); Hole; Hole;
      OnlyFullText (lit "X") ].
Proof.
  refine (handleEdit_beyond_the_end
            [ mkVehicle "2015" "FORD" "F150" "2015 FORD F150" ] 3 (lit "X") _).
  simpl. lia.
Defined.

Lemma filterWithIndex_keep {A} (xs : list A) : forall i n,
  n < i -> filterWithIndex (fun _ j => negb (j =? n)) i xs = xs.
Proof.
  induction xs as [| x xs IH]; intros i n Hn; [reflexivity |].
  cbn [filterWithIndex].
  rewrite (proj2 (Nat.eqb_neq i n)) by lia. cbn [negb]. f_equal.
  apply IH. lia.
Qed.

Lemma filterWithIndex_drop {A} (xs : list A) : forall from k,
  filterWithIndex (fun _ i => negb (i =? from + k)) from xs
  = firstn k xs ++ skipn (S k) xs.
Proof.
  induction xs as [| x xs IH]; intros from k.
  - destruct k; reflexivity.
  - cbn [filterWithIndex]. destruct k as [| k].
    + rewrite Nat.add_0_r, Nat.eqb_refl. cbn [negb firstn skipn app].
      apply filterWithIndex_keep. lia.
    + rewrite (proj2 (Nat.eqb_neq from (from + S k))) by lia.
      cbn [negb firstn skipn app]. f_equal.
      replace (from + S k) with (S from + k) by lia. apply IH.
Qed.

Lemma handleDelete_drop vehicles index :
  handleDelete vehicles index
  = firstn index vehicles ++ skipn (S index) vehicles.
Proof. unfold handleDelete. apply (filterWithIndex_drop vehicles 0 index). Qed.

(** X21: a deletion removes the record at the index and keeps the others in
    their order; at an index beyond the array it removes nothing. *)
Theorem handleDelete_removes_one vehicles index :
  handleDelete vehicles index
  = firstn index vehicles ++ skipn (S index) vehicles
  /\ (index < length vehicles ->
      S (length (handleDelete vehicles index)) = length vehicles)
  /\ (length vehicles <= index -> handleDelete vehicles index = vehicles).
Proof.
  rewrite handleDelete_drop. split; [reflexivity |]. split.
  - intro H. rewrite length_app, length_firstn, length_skipn. lia.
  - intro H. rewrite firstn_all2 by exact H.
    rewrite skipn_all2 by lia. apply app_nil_r.
Qed.

(** X22: an edit followed by the deletion of the edited record gives what
    the deletion alone gives. *)
Theorem handleDelete_after_handleEdit vehicles index newText :
  index < length vehicles ->
  exists edited,
    handleEdit vehicles index newText = map Whole edited
    /\ handleDelete edited index = handleDelete vehicles index.
Proof.
  intro Hlt.
  destruct (nth_error vehicles index) as [v |] eqn:Hv;
    [| apply nth_error_None in Hv; lia].
  exists (firstn index vehicles ++ withFullText v newText
          :: skipn (S index) vehicles).
  split; [apply handleEdit_inside, Hv |].
  rewrite !handleDelete_drop.
  assert (Hlen : length (firstn index vehicles) = index)
    by (rewrite length_firstn; lia).
  rewrite firstn_app, Hlen, Nat.sub_diag, firstn_firstn, Nat.min_id.
  cbn [firstn]. rewrite app_nil_r. f_equal.
  replace (S index) with (length (firstn index vehicles
                                  ++ [withFullText v newText])) at 1
    by (rewrite length_app, Hlen; simpl; lia).
  change (firstn index vehicles ++ withFullText v newText
          :: skipn (S index) vehicles)
    with (firstn index vehicles ++ [withFullText v newText]
          ++ skipn (S index) vehicles).
  rewrite app_assoc, skipn_app, skipn_all, Nat.sub_diag. reflexivity.
Qed.

Lemma handleDelete_after_handleEdit_witness :
  exists edited,
    handleEdit [ mkVehicle "2015" "FORD" "F150" "2015 FORD F150";
                 mkVehicle "" "" "" "99 FORD F150" ] 1 (lit "1999 FORD F150")
    = map Whole edited
    /\ handleDelete edited 1
       = [ mkVehicle "2015" "FORD" "F150" "2015 FORD F150" ].
Proof.
  refine (handleDelete_after_handleEdit
            [ mkVehicle "2015" "FORD" "F150" "2015 FORD F150";
              mkVehicle "" "" "" "99 FORD F150" ] 1 (lit "1999 FORD F150") _).
  simpl. lia.
Defined.

End EditableListFacts.
